(** * Conflict-free timetable search: the backtracking solver of
    [src/solver.py] over the data model of [src/models.py].

    The Python program is embedded shallowly.  Python [int] is [Z], a
    [set[tuple[int, int]]] is a [gset (Z * Z)], lists are lists.  The three
    variables that the closure [_backtrack] mutates ([results], [occupied],
    [current_choice]) are the fields of an explicit [State] that every
    operation passes on; an exception is a [Raises] outcome; what [solve]
    prints is a list of lines.  A fourth field of the state, [trace],
    records the operations of the search in program order, so that the
    work of the search can be stated; it is a ghost (see [trace_is_ghost]).
    The limits of the interpreter (recursion depth, memory) are not part of
    the model. *)

From stdpp Require Import base numbers list list_numbers sets gmap strings sorting pretty.

Local Open Scope Z_scope.
#[local] Set Warnings "-clear-no-such-hyp".

(** ** Python outcomes: a call returns a value or raises *)

Inductive PyExc : Type :=
  | IndexError
  | ValueError
  | TypeError.

Inductive outcome (A : Type) : Type :=
  | Returns (a : A)
  | Raises (e : PyExc).
Arguments Returns {A} a.
Arguments Raises {A} e.

#[global] Instance outcome_ret : MRet outcome := λ A a, Returns a.
#[global] Instance outcome_bind : MBind outcome := λ A B f m,
  match m with
  | Returns a => f a
  | Raises e => Raises e
  end.
#[global] Instance outcome_fmap : FMap outcome := λ A B f m,
  match m with
  | Returns a => Returns (f a)
  | Raises e => Raises e
  end.

(** [for x in l: body] over a threaded state; the first exception ends the
    loop. *)
Fixpoint for_each {A S : Type} (l : list A) (body : A → S → outcome S)
    (st : S) : outcome S :=
  match l with
  | [] => Returns st
  | x :: l' => st' ← body x st; for_each l' body st'
  end.

(** [range(start, stop)] *)
Definition py_range (start stop : Z) : list Z := seqZ start (stop - start).

(** [sorted(l, key=key)]: the stable sort by ascending key.  Every element
    is placed in front of the already sorted elements to its right whose
    key is not smaller, so equal keys keep their input order. *)
Fixpoint insert_by {A : Type} (key : A → nat) (x : A) (l : list A) : list A :=
  match l with
  | [] => [x]
  | y :: l' =>
      if decide (key x ≤ key y)%nat then x :: y :: l'
      else y :: insert_by key x l'
  end.

Definition py_sorted {A : Type} (key : A → nat) (l : list A) : list A :=
  foldr (insert_by key) [] l.

(** ** Data model ([models.py]) *)

Definition cell : Type := Z * Z.

Record TimeSlot : Type := {
  weekday : Z;
  start_period : Z;
  end_period : Z
}.

Record Section : Type := {
  course_name : string;
  section_name : string;
  section_id : string;
  course_type : string;
  time_slots : list TimeSlot;
  teacher : string
}.

Record Course : Type := {
  name : string;
  sections : list Section
}.

#[global] Instance TimeSlot_eq_dec : EqDecision TimeSlot.
Proof. solve_decision. Defined.
#[global] Instance Section_eq_dec : EqDecision Section.
Proof. solve_decision. Defined.
#[global] Instance Course_eq_dec : EqDecision Course.
Proof. solve_decision. Defined.

(** [TimeSlot.periods] *)
Definition periods (self : TimeSlot) : list cell :=
  (λ p, (weekday self, p)) <$> py_range (start_period self) (end_period self + 1).

(** [Section.all_periods] *)
Definition all_periods (self : Section) : gset cell :=
  foldl (λ result ts, result ∪ list_to_set (periods ts)) ∅ (time_slots self).

(** ** The schedule grid ([solver.py], lines 8-44) *)

Fixpoint _has_conflict (time_slots : list TimeSlot) (occupied : gset cell) : bool :=
  match time_slots with
  | [] => false
  | ts :: time_slots' =>
      if existsb (λ period, bool_decide ((weekday ts, period) ∈ occupied))
           (py_range (start_period ts) (end_period ts + 1))
      then true
      else _has_conflict time_slots' occupied
  end.

(** [_occupy] returns the list [added] and leaves the grown set behind. *)
Definition _occupy (time_slots : list TimeSlot) (occupied : gset cell)
    : list cell * gset cell :=
  foldl (λ acc ts,
           foldl (λ '(added, occupied) period,
                    let key := (weekday ts, period) in
                    (added ++ [key], occupied ∪ {[key]}))
                 acc (py_range (start_period ts) (end_period ts + 1)))
        ([], occupied) time_slots.

Definition _release (added : list cell) (occupied : gset cell) : gset cell :=
  foldl (λ occupied key, occupied ∖ {[key]}) occupied added.

(** ** The search ([solver.py], lines 47-122) *)

Definition Schedule : Type := list Section.

(** What the search does, one entry per operation, in program order.  The
    program keeps no such record: [trace] is a ghost field that only
    observes, no operation below reads it. *)
Inductive Event : Type :=
  | EvEnter                          (* _backtrack is called *)
  | EvCutoff                         (* line 90: return at the cap *)
  | EvAccept (schedule : Schedule)   (* line 94: results.append *)
  | EvQuery (section : Section)      (* line 108: _has_conflict *)
  | EvOccupy (section : Section)     (* line 112: _occupy *)
  | EvPush (section : Section)       (* lines 102, 113: current_choice.append *)
  | EvPop                            (* lines 104, 118: current_choice.pop *)
  | EvRelease (added : list cell).   (* line 119: _release *)

Record State : Type := {
  results : list Schedule;
  occupied : gset cell;
  current_choice : list Section;
  trace : list Event
}.

Definition tick (e : Event) (st : State) : State :=
  {| results := results st; occupied := occupied st;
     current_choice := current_choice st; trace := trace st ++ [e] |}.

(** [results.append(current_choice.copy())] *)
Definition accept (st : State) : State :=
  {| results := results st ++ [current_choice st]; occupied := occupied st;
     current_choice := current_choice st;
     trace := trace st ++ [EvAccept (current_choice st)] |}.

(** [current_choice.append(section)] *)
Definition push (section : Section) (st : State) : State :=
  {| results := results st; occupied := occupied st;
     current_choice := current_choice st ++ [section];
     trace := trace st ++ [EvPush section] |}.

(** [current_choice.pop()]: IndexError on an empty list *)
Definition pop (st : State) : outcome State :=
  match current_choice st with
  | [] => Raises IndexError
  | _ :: _ =>
      Returns {| results := results st; occupied := occupied st;
                 current_choice := removelast (current_choice st);
                 trace := trace st ++ [EvPop] |}
  end.

(** [added = _occupy(section.time_slots, occupied)] *)
Definition occupy (section : Section) (st : State) : list cell * State :=
  let '(added, occupied') := _occupy (time_slots section) (occupied st) in
  (added, {| results := results st; occupied := occupied';
             current_choice := current_choice st;
             trace := trace st ++ [EvOccupy section] |}).

(** [_release(added, occupied)] *)
Definition release (added : list cell) (st : State) : State :=
  {| results := results st; occupied := _release added (occupied st);
     current_choice := current_choice st;
     trace := trace st ++ [EvRelease added] |}.

(** The body of [for section in course.sections] (lines 98-119);
    [recurse] is [_backtrack(index + 1)]. *)
Definition try_section (recurse : State → outcome State) (section : Section)
    (st : State) : outcome State :=
  match time_slots section with
  | [] =>
      st ← recurse (push section st);
      pop st
  | _ :: _ =>
      let st := tick (EvQuery section) st in
      if _has_conflict (time_slots section) (occupied st) then Returns st
      else
        let '(added, st) := occupy section st in
        st ← recurse (push section st);
        st ← pop st;
        Returns (release added st)
  end.

(** [_backtrack(index)], with [pending = sorted_courses[index:]]: the test
    [index == len(sorted_courses)] is [pending = []], the course
    [sorted_courses[index]] is the head of [pending], and
    [_backtrack(index + 1)] runs on its tail. *)
Fixpoint _backtrack (max_results : Z) (pending : list Course) (st : State)
    : outcome State :=
  let st := tick EvEnter st in
  if bool_decide (max_results ≤ Z.of_nat (length (results st)))
  then Returns (tick EvCutoff st)
  else
    match pending with
    | [] => Returns (accept st)
    | course :: pending' =>
        for_each (sections course)
                 (try_section (_backtrack max_results pending')) st
    end.

Definition valid_courses (courses : list Course) : list Course :=
  filter (λ c, sections c ≠ []) courses.

Definition empty_courses (courses : list Course) : list Course :=
  filter (λ c, sections c = []) courses.

Definition sorted_courses (courses : list Course) : list Course :=
  py_sorted (λ c, length (sections c)) (valid_courses courses).

Definition quote : string := String (Ascii.ascii_of_nat 34) EmptyString.

(** The line printed for a course without sections (line 75). *)
Definition skip_message (c : Course) : string :=
  "  [!] 课程 " +:+ quote +:+ name c +:+ quote +:+ " 没有可选的教学班，已跳过".

Definition initial_state : State :=
  {| results := []; occupied := ∅; current_choice := []; trace := [] |}.

(** One call of [solve]: the lines it prints, the list it returns and, when
    the search ran, the state the search ended in. *)
Record Run : Type := {
  printed : list string;
  returned : list Schedule;
  search : option State
}.

Definition solve_run (courses : list Course) (max_results : Z) : outcome Run :=
  match courses with
  | [] => Returns {| printed := []; returned := []; search := None |}
  | _ :: _ =>
      let out := skip_message <$> empty_courses courses in
      match valid_courses courses with
      | [] => Returns {| printed := out; returned := []; search := None |}
      | _ :: _ =>
          st ← _backtrack max_results (sorted_courses courses) initial_state;
          Returns {| printed := out; returned := results st; search := Some st |}
      end
  end.

Definition solve (courses : list Course) (max_results : Z) : outcome (list Schedule) :=
  returned <$> solve_run courses max_results.

(** ** Test data: the scenarios of the specification *)

Definition slot (d a b : Z) : TimeSlot :=
  {| weekday := d; start_period := a; end_period := b |}.

Definition mk_section (c s : string) (ts : list TimeSlot) : Section :=
  {| course_name := c; section_name := s; section_id := s;
     course_type := "bxxk"; time_slots := ts; teacher := "" |}.

Definition x_mon : Section := mk_section "X" "X-1" [slot 0 1 2].
Definition x_tue : Section := mk_section "X" "X-2" [slot 1 1 2].
Definition y_mon : Section := mk_section "Y" "Y-1" [slot 0 1 2].
Definition course_X : Course := {| name := "X"; sections := [x_mon; x_tue] |}.
Definition course_Y : Course := {| name := "Y"; sections := [y_mon] |}.
Definition course_none : Course := {| name := "N"; sections := [] |}.

Definition b_mon : Section := mk_section "B1" "B1-1" [slot 0 1 2].
Definition b_tue : Section := mk_section "B2" "B2-1" [slot 1 3 4].
Definition b_wed : Section := mk_section "B3" "B3-1" [slot 2 5 6].
Definition course_B1 : Course := {| name := "B1"; sections := [b_mon] |}.
Definition course_B2 : Course := {| name := "B2"; sections := [b_tue] |}.
Definition course_B3 : Course := {| name := "B3"; sections := [b_wed] |}.

Definition p_mon : Section := mk_section "P" "P-1" [slot 0 1 2].
Definition p_tue : Section := mk_section "P" "P-2" [slot 1 1 2].
Definition q_wed : Section := mk_section "Q" "Q-1" [slot 2 1 2].
Definition q_thu : Section := mk_section "Q" "Q-2" [slot 3 1 2].
Definition course_P : Course := {| name := "P"; sections := [p_mon; p_tue] |}.
Definition course_Q : Course := {| name := "Q"; sections := [q_wed; q_thu] |}.

(** ** The specification side: valid combinations *)

(** The cells a list of time slots covers, in the order the loops of
    [_occupy] visit them. *)
Definition covered (time_slots : list TimeSlot) : list cell :=
  time_slots ≫= periods.

(** No two sections of the schedule (at different positions) share a
    covered cell. *)
Fixpoint conflict_free (schedule : list Section) : Prop :=
  match schedule with
  | [] => True
  | s :: schedule' =>
      Forall (λ s', all_periods s ## all_periods s') schedule'
      ∧ conflict_free schedule'
  end.

(** A conflict-free schedule that also stays clear of the cells [occ]. *)
Definition compatible (occ : gset cell) (schedule : list Section) : Prop :=
  Forall (λ s, all_periods s ## occ) schedule ∧ conflict_free schedule.

#[global] Instance conflict_free_dec schedule : Decision (conflict_free schedule).
Proof. induction schedule; simpl; apply _. Defined.

#[global] Instance compatible_dec occ schedule : Decision (compatible occ schedule).
Proof. unfold compatible; apply _. Defined.

(** One section of every course, in the order of the courses. *)
Definition one_per_course (courses : list Course) (schedule : list Section) : Prop :=
  Forall2 (λ c s, s ∈ sections c) courses schedule.

(** Every way to pick one listed section per course, first course
    outermost, sections in their listed order. *)
Fixpoint combinations (courses : list Course) : list Schedule :=
  match courses with
  | [] => [[]]
  | c :: courses' => s ← sections c; (s ::.) <$> combinations courses'
  end.

Definition valid_combinations (courses : list Course) : list Schedule :=
  filter conflict_free (combinations courses).

Definition extensions (occ : gset cell) (pending : list Course) : list Schedule :=
  filter (compatible occ) (combinations pending).

(** The valid combinations of [s :: pending] that go through the section
    [s], on a grid where [occ] is taken. *)
Definition through (pending : list Course) (occ : gset cell) (s : Section)
    : list Schedule :=
  if decide (all_periods s ## occ)
  then (s ::.) <$> extensions (occ ∪ all_periods s) pending
  else [].

(** The schedules one call of [_backtrack] adds to [results]. *)
Definition found (max_results : Z) (pending : list Course) (st : State)
    : list Schedule :=
  take (Z.to_nat (max_results - Z.of_nat (length (results st))))
       ((current_choice st ++.) <$> extensions (occupied st) pending).

(** [r] returns [st] with [new] appended to [results] and some events
    appended to [trace]; [occupied] and [current_choice] are as in [st]. *)
Definition runs_to (r : outcome State) (st : State) (new : list Schedule) : Prop :=
  ∃ tr, r = Returns {| results := results st ++ new; occupied := occupied st;
                       current_choice := current_choice st;
                       trace := trace st ++ tr |}.

(** The list [solve] is to return: nothing when no course has a section,
    else the first [max_results] valid combinations of the sorted courses. *)
Definition enumeration (courses : list Course) (max_results : Z) : list Schedule :=
  match valid_courses courses with
  | [] => []
  | _ :: _ => take (Z.to_nat max_results) (valid_combinations (sorted_courses courses))
  end.

(** The events that follow the [n]-th acceptance of a schedule. *)
Fixpoint after_cap (n : nat) (tr : list Event) {struct tr} : list Event :=
  match n, tr with
  | O, _ => tr
  | S _, [] => []
  | S n', EvAccept _ :: tr' => after_cap n' tr'
  | S _, _ :: tr' => after_cap n tr'
  end.

(** The events by which the search goes into a section choice. *)
Definition explores (e : Event) : bool :=
  match e with
  | EvQuery _ | EvOccupy _ | EvPush _ => true
  | _ => false
  end.

(** What the loop body does with a section once the cap is reached: the
    recursive call is made and returns at its first check. *)
Definition late_visit (occ : gset cell) (s : Section) : list Event :=
  match time_slots s with
  | [] => [EvPush s; EvEnter; EvCutoff; EvPop]
  | _ :: _ =>
      if _has_conflict (time_slots s) occ then [EvQuery s]
      else [EvQuery s; EvOccupy s; EvPush s; EvEnter; EvCutoff; EvPop;
            EvRelease (covered (time_slots s))]
  end.

(** The same choice of sections, course by course. *)
Definition same_selection (courses : list Course) (schedule : list Section)
    (courses' : list Course) (schedule' : list Section) : Prop :=
  zip courses schedule ≡ₚ zip courses' schedule'.

(** Rearrangements of a schedule that follow a rearrangement of the
    courses: keep the head, or exchange the first two sections. *)
Definition under_head (g : list Section → list Section) (ss : list Section)
    : list Section :=
  match ss with
  | [] => []
  | s :: ss' => s :: g ss'
  end.

Definition swap_heads (ss : list Section) : list Section :=
  match ss with
  | s1 :: s2 :: ss' => s2 :: s1 :: ss'
  | _ => ss
  end.

Definition by_count (c1 c2 : Course) : Prop :=
  (length (sections c1) ≤ length (sections c2))%nat.

(** The cap as a hard stop, for one call of [solve]: no more than
    [max_results] schedules are returned, and once that many are accepted
    no further section is queried, occupied or pushed. *)
Definition stops_at_cap (courses : list Course) (max_results : Z) : Prop :=
  ∀ run, solve_run courses max_results = Returns run →
    Z.of_nat (length (returned run)) ≤ max_results
    ∧ ∀ st, search run = Some st →
        Forall (λ e, explores e = false)
               (after_cap (Z.to_nat max_results) (trace st)).

(** Test data: sections that cover no cell. *)
Definition free_section : Section := mk_section "Z" "Z-0" [].
Definition inverted_section : Section := mk_section "Z" "Z-1" [slot 0 5 3; slot 2 9 1].

(** ** The rest of [models.py] and [solver.py] *)

(** [l[i]]: a negative index counts from the end, an index out of range
    raises IndexError. *)
Definition py_getitem {A : Type} (l : list A) (i : Z) : outcome A :=
  let n := Z.of_nat (length l) in
  let j := if bool_decide (i < 0) then i + n else i in
  if bool_decide (0 ≤ j < n)
  then match l !! Z.to_nat j with
       | Some x => Returns x
       | None => Raises IndexError
       end
  else Raises IndexError.

(** [sep.join(l)] *)
Definition py_join (sep : string) (l : list string) : string := String.concat sep l.

(** [s * n] *)
Definition py_repeat (s : string) (n : nat) : string := String.concat "" (replicate n s).

Definition newline : string := String (Ascii.ascii_of_nat 10) EmptyString.

Definition PERIOD_TIMES : list (Z * string) :=
  [(1, "08:00-08:50"); (2, "09:00-09:50"); (3, "10:20-11:10");
   (4, "11:20-12:10"); (5, "14:00-14:50"); (6, "15:00-15:50");
   (7, "16:20-17:10"); (8, "17:20-18:10"); (9, "19:00-19:50");
   (10, "20:00-20:50"); (11, "21:10-22:00")].

Definition WEEKDAY_NAMES : list string := ["周一"; "周二"; "周三"; "周四"; "周五"].

(** [TimeSlot.__str__] *)
Definition TimeSlot_str (self : TimeSlot) : outcome string :=
  wd ← (if bool_decide (weekday self < Z.of_nat (length WEEKDAY_NAMES))
        then py_getitem WEEKDAY_NAMES (weekday self)
        else Returns ("星期" +:+ pretty (weekday self)));
  Returns (wd +:+ " 第" +:+ pretty (start_period self) +:+ "-"
              +:+ pretty (end_period self) +:+ "节").

(** [[f(x) for x in l]] with an [f] that can raise *)
Fixpoint for_list {A B : Type} (f : A → outcome B) (l : list A) : outcome (list B) :=
  match l with
  | [] => Returns []
  | x :: l' => y ← f x; ys ← for_list f l'; Returns (y :: ys)
  end.

(** [Section.__str__] *)
Definition Section_str (self : Section) : outcome string :=
  strs ← for_list TimeSlot_str (time_slots self);
  let slots_str := py_join ", " strs in
  let teacher_info :=
    if bool_decide (teacher self = "") then "" else " (" +:+ teacher self +:+ ")" in
  Returns (section_name self +:+ teacher_info +:+ " [" +:+ slots_str +:+ "]").

(** [Course.__str__] *)
Definition Course_str (self : Course) : string :=
  name self +:+ " (" +:+ pretty (length (sections self)) +:+ " 个教学班)".

(** [print_solve_summary]: the strings of its six [print] calls. *)
Definition print_solve_summary (courses : list Course) (results : list Schedule)
    : list string :=
  let total_sections := sum_list_with (λ c, length (sections c)) courses in
  [newline +:+ py_repeat "=" 50;
   "求解完成！";
   "  课程数: " +:+ pretty (length courses);
   "  总教学班数: " +:+ pretty total_sections;
   "  可行方案数: " +:+ pretty (length results);
   py_repeat "=" 50 +:+ newline].

(** Test data: a course listed twice. *)
Definition course_YY : list Course := [course_Y; course_X; course_Y].

(** The same time slot on the weekday [d]. *)
Definition on_weekday (d : Z) (ts : TimeSlot) : TimeSlot :=
  {| weekday := d; start_period := start_period ts; end_period := end_period ts |}.

(** ** The display ([display.py]) *)

(** Three operations of Python on [str] are parameters of the display:
    [len s], the slice [s[:n]] (both count code points, where a [string]
    here is a sequence of bytes), and for the pager [strip], [lower],
    [isdigit] and [int].  What is handed to [rich] is recorded as a list of
    [Printed] items; the widths and styles of the table columns are left to
    [rich].  A call that raises is modelled by [Raises] alone, without what
    it printed before. *)

Definition COLORS : list string :=
  ["bright_cyan"; "bright_green"; "bright_yellow"; "bright_magenta";
   "bright_red"; "bright_blue"; "deep_sky_blue1"; "spring_green1";
   "gold1"; "orchid1"; "salmon1"; "turquoise2"].

Definition _get_color (index : Z) : outcome string :=
  py_getitem COLORS (index `mod` Z.of_nat (length COLORS)).

(** [list(dict.fromkeys(keys))]: the keys in the order of their first
    occurrence. *)
Definition dict_fromkeys (keys : list string) : list string :=
  foldl (λ acc k, if bool_decide (k ∈ acc) then acc else acc ++ [k]) [] keys.

(** [d.get(k)] and [d.get(k, v)] on a dict given by its items *)
Fixpoint dict_get {K V : Type} `{EqDecision K} (d : list (K * V)) (k : K) : option V :=
  match d with
  | [] => None
  | (k', v) :: d' => if decide (k' = k) then Some v else dict_get d' k
  end.

(** [color_map] of [display_schedule] (lines 53-56) *)
Definition color_map_of (schedule : list Section) : outcome (gmap string string) :=
  let course_names := dict_fromkeys (course_name <$> schedule) in
  for_each (imap (λ i name, (Z.of_nat i, name)) course_names)
           (λ '(i, name) color_map,
              c ← _get_color i; Returns (<[name := c]> color_map))
           ∅.

Definition Entry : Type := string * string * string.

(** [color_map.get(section.course_name, "white")] *)
Definition color_of (color_map : gmap string string) (section : Section) : string :=
  default "white" (color_map !! course_name section).

(** [grid] of [display_schedule] (lines 59-69) *)
Definition fill_grid (color_map : gmap string string) (schedule : list Section)
    : gmap cell Entry :=
  foldl (λ grid section,
           let color := color_of color_map section in
           foldl (λ grid ts,
                    foldl (λ grid period,
                             <[(weekday ts, period) :=
                                 (course_name section, teacher section, color)]> grid)
                          grid (py_range (start_period ts) (end_period ts + 1)))
                 grid (time_slots section))
        ∅ schedule.

(** A cell of a table row: a [str], or a [Text] with its appended spans
    (text and style). *)
Inductive TableCell : Type :=
  | CellStr (s : string)
  | CellText (spans : list (string * string)).

Inductive Printed : Type :=
  | PrintTable (title : string) (columns : list string) (rows : list (list TableCell))
  | PrintPanel (body title border_style : string)
  | PrintLine (s : string)
  | Prompt (s : string).

(** [f"{n:>2}"] *)
Definition format_right2 (n : Z) : string :=
  py_repeat " " (2 - String.length (pretty n)) +:+ pretty n.

(** One cell of the table (lines 93-105). *)
Definition table_cell (len : string → nat) (upto : nat → string → string)
    (grid : gmap cell Entry) (period weekday : Z) : TableCell :=
  match grid !! (weekday, period) with
  | Some (course_name, teacher, color) =>
      let display_name :=
        if bool_decide (len course_name ≤ 8)%nat then course_name
        else upto 7%nat course_name +:+ "…" in
      let name_span := (display_name +:+ newline, "bold " +:+ color) in
      if bool_decide (teacher = "") then CellText [name_span]
      else
        let short_teacher :=
          if bool_decide (len teacher ≤ 6)%nat then teacher
          else upto 5%nat teacher +:+ "…" in
        CellText [name_span; (short_teacher, "dim " +:+ color)]
  | None => CellStr ""
  end.

(** One row of the table (lines 88-107). *)
Definition table_row (len : string → nat) (upto : nat → string → string)
    (grid : gmap cell Entry) (period : Z) : list TableCell :=
  let time_str := default "" (dict_get PERIOD_TIMES period) in
  let row_label := "第" +:+ format_right2 period +:+ "节" +:+ newline +:+ time_str in
  CellStr row_label :: (table_cell len upto grid period <$> py_range 0 5).

Definition table_rows (len : string → nat) (upto : nat → string → string)
    (grid : gmap cell Entry) : list (list TableCell) :=
  table_row len upto grid <$> py_range 1 12.

(** One line of the details under the table (lines 113-122). *)
Definition detail_line (color_map : gmap string string) (section : Section)
    : outcome string :=
  strs ← for_list TimeSlot_str (time_slots section);
  let slots_str := py_join ", " strs in
  let slots_str := if bool_decide (slots_str = "") then "时间未知" else slots_str in
  let color := color_of color_map section in
  Returns ("  [" +:+ color +:+ "]●[/" +:+ color +:+ "] " +:+ course_name section
           +:+ "  " +:+ teacher section +:+ "  [dim]" +:+ slots_str +:+ "[/dim]").

Definition display_schedule (len : string → nat) (upto : nat → string → string)
    (schedule : list Section) (scheme_index total_schemes : Z)
    : outcome (list Printed) :=
  color_map ← color_map_of schedule;
  let grid := fill_grid color_map schedule in
  let table :=
    PrintTable ("方案 " +:+ pretty scheme_index +:+ "/" +:+ pretty total_schemes)
               ("节次" :: WEEKDAY_NAMES) (table_rows len upto grid) in
  details ← for_list (detail_line color_map) schedule;
  Returns ([table; PrintLine ""] ++ (PrintLine <$> details) ++ [PrintLine ""]).

(** The entry that the grid shows for a section. *)
Definition entry_of (color_map : gmap string string) (section : Section) : Entry :=
  (course_name section, teacher section, color_of color_map section).

(** The last section of the schedule that covers the cell. *)
Definition last_owner (schedule : list Section) (c : cell) : option Section :=
  last (filter (λ s, c ∈ all_periods s) schedule).

(** The operations of Python on [str] that the display uses. *)
Record StrOps : Type := {
  str_len : string → nat;
  str_upto : nat → string → string;
  str_strip : string → string;
  str_lower : string → string;
  str_isdigit : string → bool;
  str_int : string → outcome Z
}.

Definition no_result_panel : Printed :=
  PrintPanel ("[bold red]没有找到可行的无冲突课表方案！[/bold red]" +:+ newline +:+ newline
              +:+ "可能的原因：" +:+ newline
              +:+ "  1. 所选课程之间存在不可避免的时间冲突" +:+ newline
              +:+ "  2. 某些课程只有一个教学班且与其他课程冲突" +:+ newline
              +:+ "  3. 课程时间信息获取不完整" +:+ newline +:+ newline
              +:+ "建议：减少一些课程后重试")
             "求解结果" "red".

Definition found_panel (total : Z) : Printed :=
  PrintPanel ("共找到 [bold green]" +:+ pretty total +:+ "[/bold green] 种可行方案" +:+ newline
              +:+ "按 [bold]Enter[/bold] 查看下一个，输入 [bold]q[/bold] 退出，输入 [bold]数字[/bold] 跳转到指定方案")
             "求解结果" "green".

Definition separator_line : Printed :=
  PrintLine (py_repeat "[dim]─" 40 +:+ "[/dim]" +:+ newline).

Definition pager_prompt (idx total : Z) : Printed :=
  Prompt (newline +:+ "[方案 " +:+ pretty (idx + 1) +:+ "/" +:+ pretty total +:+ "] "
          +:+ "Enter=下一个 | q=退出 | 数字=跳转: ").

Definition range_warning (total : Z) : Printed :=
  PrintLine ("  [yellow]方案编号应在 1-" +:+ pretty total +:+ " 之间[/yellow]").

Definition all_shown_line (total : Z) : Printed :=
  PrintLine ("[dim]已展示全部 " +:+ pretty total +:+ " 种方案。[/dim]").

(** [for i, schedule in enumerate(results, 1)] of [display_all_schedules]
    (lines 151-154), from the number [i] on. *)
Fixpoint show_all (ops : StrOps) (total i : Z) (results : list Schedule)
    : outcome (list Printed) :=
  match results with
  | [] => Returns []
  | schedule :: results' =>
      shown ← display_schedule (str_len ops) (str_upto ops) schedule i total;
      let sep := if bool_decide (i < total) then [separator_line] else [] in
      more ← show_all ops total (i + 1) results';
      Returns (shown ++ sep ++ more)
  end.

(** [while idx < total] of [display_all_schedules] (lines 165-189).
    [stdin] holds the lines that [input()] will return; at its end
    [input()] raises EOFError, which ends the loop. *)
Fixpoint pager_loop (ops : StrOps) (results : list Schedule) (total : Z)
    (stdin : list string) (idx : Z) {struct stdin} : outcome (list Printed) :=
  if bool_decide (idx < total) then
    schedule ← py_getitem results idx;
    shown ← display_schedule (str_len ops) (str_upto ops) schedule (idx + 1) total;
    if bool_decide (idx < total - 1) then
      match stdin with
      | [] => Returns (shown ++ [pager_prompt idx total])
      | line :: stdin' =>
          let user_input := str_strip ops line in
          if bool_decide (str_lower ops user_input = "q")
          then Returns (shown ++ [pager_prompt idx total])
          else if str_isdigit ops user_input then
            target ← str_int ops user_input;
            if bool_decide (1 ≤ target ≤ total) then
              more ← pager_loop ops results total stdin' (target - 1);
              Returns (shown ++ [pager_prompt idx total] ++ more)
            else
              more ← pager_loop ops results total stdin' idx;
              Returns (shown ++ [pager_prompt idx total; range_warning total] ++ more)
          else
            more ← pager_loop ops results total stdin' (idx + 1);
            Returns (shown ++ [pager_prompt idx total] ++ more)
      end
    else Returns (shown ++ [all_shown_line total])
  else Returns [].

Definition display_all_schedules (ops : StrOps) (results : list Schedule)
    (stdin : list string) : outcome (list Printed) :=
  match results with
  | [] => Returns [no_result_panel]
  | _ :: _ =>
      let total := Z.of_nat (length results) in
      if bool_decide (total ≤ 5) then show_all ops total 1 results
      else
        more ← pager_loop ops results total stdin 0;
        Returns (found_panel total :: more)
  end.

(** A schedule that [display_schedule] can print. *)
Definition displayable (schedule : list Section) : Prop :=
  Forall (λ s, Forall (λ ts, -5 ≤ weekday ts) (time_slots s)) schedule.

(** The title of the table of scheme [i] of [total]. *)
Definition scheme_title (total i : Z) : string :=
  "方案 " +:+ pretty i +:+ "/" +:+ pretty total.

(** The titles of the tables among what was printed. *)
Definition table_titles (out : list Printed) : list string :=
  omap (λ p, match p with PrintTable title _ _ => Some title | _ => None end) out.

(** A printed table is the table of one of the schedules, under its
    number. *)
Definition shows_scheme (ops : StrOps) (results : list Schedule) (p : Printed) : Prop :=
  match p with
  | PrintTable title _ rows =>
      ∃ i schedule cm,
        results !! i = Some schedule
        ∧ color_map_of schedule = Returns cm
        ∧ title = scheme_title (Z.of_nat (length results)) (Z.of_nat i + 1)
        ∧ rows = table_rows (str_len ops) (str_upto ops) (fill_grid cm schedule)
  | _ => True
  end.

(** A line that the pager takes as a plain Enter. *)
Definition plain_enter (ops : StrOps) (line : string) : Prop :=
  str_lower ops (str_strip ops line) ≠ "q"
  ∧ str_isdigit ops (str_strip ops line) = false.

(** Test data: operations on ASCII text, good enough where no letter and no
    blank occurs. *)
Definition ascii_ops : StrOps :=
  {| str_len := String.length;
     str_upto := λ n s, String.substring 0 n s;
     str_strip := λ s, s;
     str_lower := λ s, s;
     str_isdigit := λ s, false;
     str_int := λ s, Raises ValueError |}.

Definition six_schedules : list Schedule :=
  [[p_mon; q_wed]; [p_mon; q_thu]; [p_tue; q_wed]; [p_tue; q_thu];
   [x_mon]; [x_tue]].

(** A section without a time slot from Monday to Friday. *)
Definition off_week (s : Section) : Prop :=
  Forall (λ ts, ¬ 0 ≤ weekday ts ≤ 4) (time_slots s).

#[global] Instance off_week_dec s : Decision (off_week s).
Proof. unfold off_week. apply _. Defined.

(** Test data: a section on a Saturday. *)
Definition x_sat : Section := mk_section "X" "X-3" [slot 5 1 2].

(** ** The scraper ([scraper.py]) *)

(** *** [parse_time_slots]

    The regular expression works on the code points of the string, so here
    a Python [str] is a list of code points.  Which code points are
    decimal digits (that [\d] matches and [int] reads), and with which
    value, is the parameter [decimal].  The limit that [int] puts on the
    number of digits is outside the model. *)

Definition cp_xing : N := 0x661F.   (* 星 *)
Definition cp_qi : N := 0x671F.     (* 期 *)
Definition cp_di : N := 0x7B2C.     (* 第 *)
Definition cp_jie : N := 0x8282.    (* 节 *)
Definition cp_dash : N := 0x2D.     (* - *)

(** [WEEKDAY_MAP], its keys given by their code point: 一 二 三 四 五 六 日 *)
Definition WEEKDAY_MAP : list (N * Z) :=
  [(0x4E00%N, 0); (0x4E8C%N, 1); (0x4E09%N, 2); (0x56DB%N, 3); (0x4E94%N, 4);
   (0x516D%N, 5); (0x65E5%N, 6)].

(** The class [[一二三四五六日]] of the pattern. *)
Definition weekday_class : list N :=
  [0x4E00; 0x4E8C; 0x4E09; 0x56DB; 0x4E94; 0x516D; 0x65E5]%N.

(** A literal of the pattern at the head of the string. *)
Definition literal (c : N) (s : list N) : option (list N) :=
  match s with
  | c' :: s' => if decide (c' = c) then Some s' else None
  | [] => None
  end.

(** The longest run of digits at the head of the string, and what follows. *)
Fixpoint digit_span (decimal : N → option N) (s : list N) : list N * list N :=
  match s with
  | c :: s' =>
      match decimal c with
      | Some _ => let '(ds, rest) := digit_span decimal s' in (c :: ds, rest)
      | None => ([], s)
      end
  | [] => ([], [])
  end.

(** What [\d+] can match at the head of the string, in the order in which
    the engine tries: the longest run first, then one digit less, down to
    one digit; each with the rest of the string. *)
Definition digit_runs (decimal : N → option N) (s : list N) : list (list N * list N) :=
  let '(ds, rest) := digit_span decimal s in
  (λ n, (take n ds, drop n ds ++ rest)) <$> reverse (seq 1 (length ds)).

(** The first alternative that leads to a match. *)
Fixpoint first_match {A B : Type} (f : A → option B) (l : list A) : option B :=
  match l with
  | [] => None
  | x :: l' =>
      match f x with
      | Some y => Some y
      | None => first_match f l'
      end
  end.

(** A match of [TIME_PATTERN] that starts at the head of the string: the
    three groups, and the rest of the string after the match. *)
Definition match_at (decimal : N → option N) (s : list N)
    : option (N * list N * list N * list N) :=
  s1 ← literal cp_xing s;
  s2 ← literal cp_qi s1;
  match s2 with
  | c :: s3 =>
      if bool_decide (c ∈ weekday_class) then
        s4 ← literal cp_di s3;
        first_match
          (λ '(g2, s5),
             s6 ← literal cp_dash s5;
             first_match
               (λ '(g3, s7), s8 ← literal cp_jie s7; Some (c, g2, g3, s8))
               (digit_runs decimal s6))
          (digit_runs decimal s4)
      else None
  | [] => None
  end.

(** [TIME_PATTERN.finditer]: the matches from left to right, the search
    going on where the last match ended.  [skip] counts the code points
    that are still inside the last match. *)
Fixpoint finditer (decimal : N → option N) (skip : nat) (s : list N)
    : list (N * list N * list N) :=
  match s with
  | [] => []
  | _ :: s' =>
      match skip with
      | S k => finditer decimal k s'
      | O =>
          match match_at decimal s with
          | Some (c, g2, g3, rest) =>
              (c, g2, g3) :: finditer decimal (length s - length rest - 1) s'
          | None => finditer decimal 0 s'
          end
      end
  end.

(** [int(group)] of a group of digits *)
Definition int_of (decimal : N → option N) (g : list N) : Z :=
  foldl (λ acc c, 10 * acc + Z.of_N (default 0%N (decimal c))) 0 g.

Definition parse_time_slots (decimal : N → option N) (time_str : list N)
    : list TimeSlot :=
  omap (λ '(weekday_char, g2, g3),
          let start := int_of decimal g2 in
          let end_ := int_of decimal g3 in
          match dict_get WEEKDAY_MAP weekday_char with
          | Some weekday =>
              Some {| weekday := weekday; start_period := start; end_period := end_ |}
          | None => None
          end)
       (finditer decimal 0 time_str).

(** The digits 0 to 9 of ASCII, and the decimal numeral of a number in
    them. *)
Definition ascii_digit (c : N) : option N :=
  if bool_decide (48 ≤ c ≤ 57)%N then Some (c - 48)%N else None.

Fixpoint numeral_rev (fuel : nat) (n : N) : list N :=
  match fuel with
  | O => []
  | S fuel' =>
      if bool_decide (n < 10)%N then [48 + n]%N
      else (48 + n `mod` 10)%N :: numeral_rev fuel' (n `div` 10)%N
  end.

Definition numeral (n : N) : list N := reverse (numeral_rev (S (N.to_nat n)) n).

(** The text of a time slot in the format of the docstring:
    星期一第1-2节. *)
Definition slot_text (ts : TimeSlot) : list N :=
  [cp_xing; cp_qi; default 0%N (weekday_class !! Z.to_nat (weekday ts)); cp_di]
  ++ numeral (Z.to_N (start_period ts)) ++ [cp_dash]
  ++ numeral (Z.to_N (end_period ts)) ++ [cp_jie].

(** A time slot that the format can express. *)
Definition expressible (ts : TimeSlot) : Prop :=
  0 ≤ weekday ts ≤ 6 ∧ 0 ≤ start_period ts ∧ 0 ≤ end_period ts.

(** ** The selection ([scraper.py], lines 194-279)

    [get_courses_for_selection] from the return of [fetch_all_courses] on:
    the dict that the fetch returned is the argument [fetched], a dict
    being the list of its items in insertion order, with distinct keys.
    Of [str] the function uses [strip] and the substring test
    ([contains a b] is [a in b]); both are parameters.  The output is the
    list of the lines that this function prints itself; what was printed
    before an exception is not kept. *)

Definition _HARDCODED : list (string * list Section) :=
  [("数理逻辑导论",
    [{| course_name := "数理逻辑导论";
        section_name := "数理逻辑导论-01班-英文 - 陶伊达";
        section_id := "CS104-01";
        course_type := "zynknjxk";
        time_slots := [{| weekday := 2; start_period := 3; end_period := 4 |}];
        teacher := "陶伊达" |}])].

(** lines 231-234 *)
Definition add_hardcoded (all_courses : list (string * list Section))
    : list (string * list Section) * list string :=
  foldl (λ '(all_courses, out) '(hc_name, hc_sections),
           match dict_get all_courses hc_name with
           | Some _ => (all_courses, out)
           | None => (all_courses ++ [(hc_name, hc_sections)],
                      out ++ ["  [*] 补充硬编码课程: " +:+ hc_name])
           end)
        (all_courses, []) _HARDCODED.

(** [result], [not_found] and the lines printed so far *)
Record Selection : Type := {
  result : list Course;
  not_found : list string;
  output : list string
}.

(** lines 251-254 *)
Definition fuzzy_matches (contains : string → string → bool)
    (all_courses : list (string * list Section)) (name : string)
    : list (string * list Section) :=
  filter (λ item, contains name item.1 || contains item.1 name) all_courses.

(** lines 266-268: the line printed for a section of a merged course *)
Definition section_line (sec : Section) : outcome string :=
  strs ← for_list TimeSlot_str (time_slots sec);
  let slots_str := py_join ", " strs in
  let slots_str := if bool_decide (slots_str = "") then "时间未知" else slots_str in
  Returns ("      - " +:+ section_name sec +:+ " [" +:+ slots_str +:+ "]").

(** The body of [for name in wanted_course_names] (lines 239-271) *)
Definition select (strip : string → string) (contains : string → string → bool)
    (all_courses : list (string * list Section)) (name : string) (st : Selection)
    : outcome Selection :=
  let name := strip name in
  if bool_decide (name = "") then Returns st
  else
    match dict_get all_courses name with
    | Some sections =>
        Returns {| result := result st ++ [Build_Course name sections];
                   not_found := not_found st;
                   output := output st |}
    | None =>
        match fuzzy_matches contains all_courses name with
        | [] =>
            Returns {| result := result st;
                       not_found := not_found st ++ [name];
                       output := output st |}
        | [(matched_name, sections)] =>
            Returns {| result := result st ++ [Build_Course matched_name sections];
                       not_found := not_found st;
                       output := output st
                         ++ ["  [*] 模糊匹配: " +:+ quote +:+ name +:+ quote +:+ " -> "
                             +:+ quote +:+ matched_name +:+ quote] |}
        | fuzzy =>
            let all_sections := fuzzy ≫= snd in
            lines ← for_list section_line all_sections;
            Returns {| result := result st ++ [Build_Course name all_sections];
                       not_found := not_found st;
                       output := output st
                         ++ ["  [*] " +:+ quote +:+ name +:+ quote +:+ " 匹配到 "
                             +:+ pretty (length all_sections) +:+ " 个教学班:"]
                         ++ lines |}
        end
    end.

(** lines 273-277 *)
Definition not_found_report (not_found : list string) : list string :=
  match not_found with
  | [] => []
  | _ =>
      [newline +:+ "[!] 以下课程未在 TIS 中找到:"]
      ++ ((λ name, "    - " +:+ name) <$> not_found)
      ++ ["    请检查课程名是否与 TIS 系统中的完全一致" +:+ newline]
  end.

(** The state after the loop over the wanted names. *)
Definition selection (strip : string → string) (contains : string → string → bool)
    (fetched : list (string * list Section)) (wanted_course_names : list string)
    : outcome Selection :=
  let '(all_courses, out) := add_hardcoded fetched in
  for_each wanted_course_names (select strip contains all_courses)
           {| result := []; not_found := [];
              output := "[*] 从 TIS 获取课程数据..." :: out |}.

Definition get_courses_for_selection (strip : string → string)
    (contains : string → string → bool)
    (fetched : list (string * list Section)) (wanted_course_names : list string)
    : outcome (list Course * list string) :=
  st ← selection strip contains fetched wanted_course_names;
  Returns (result st, output st ++ not_found_report (not_found st)).

(** [a in b] on strings of bytes, for the examples *)
Fixpoint py_in (a b : string) : bool :=
  String.prefix a b
  || match b with
     | EmptyString => false
     | String _ b' => py_in a b'
     end.

(** Test data: what a fetch could return. *)
Definition tis_courses : list (string * list Section) :=
  [("X", [x_mon; x_tue]); ("Y", [y_mon])].

(** What one pass of the loop of [get_courses_for_selection] does to the
    state: the five ways through its body. *)
Inductive select_step (strip : string → string) (contains : string → string → bool)
    (all_courses : list (string * list Section)) (name : string)
    (st st' : Selection) : Prop :=
  | step_blank :
      strip name = "" → st' = st → select_step strip contains all_courses name st st'
  | step_exact (secs : list Section) :
      strip name ≠ "" →
      dict_get all_courses (strip name) = Some secs →
      result st' = result st ++ [Build_Course (strip name) secs] →
      not_found st' = not_found st →
      output st' = output st →
      select_step strip contains all_courses name st st'
  | step_single (matched_name : string) (secs : list Section) (line : string) :
      strip name ≠ "" →
      dict_get all_courses (strip name) = None →
      fuzzy_matches contains all_courses (strip name) = [(matched_name, secs)] →
      result st' = result st ++ [Build_Course matched_name secs] →
      not_found st' = not_found st →
      output st' = output st ++ [line] →
      select_step strip contains all_courses name st st'
  | step_merged (first second : string * list Section)
        (more : list (string * list Section)) (lines : list string) :
      strip name ≠ "" →
      dict_get all_courses (strip name) = None →
      fuzzy_matches contains all_courses (strip name) = first :: second :: more →
      result st'
      = result st ++ [Build_Course (strip name) ((first :: second :: more) ≫= snd)] →
      not_found st' = not_found st →
      output st' = output st ++ lines →
      select_step strip contains all_courses name st st'
  | step_not_found :
      strip name ≠ "" →
      dict_get all_courses (strip name) = None →
      fuzzy_matches contains all_courses (strip name) = [] →
      result st' = result st →
      not_found st' = not_found st ++ [strip name] →
      output st' = output st →
      select_step strip contains all_courses name st st'.

(** * Properties *)

(** ** The grid *)

Lemma elem_of_py_range (start stop k : Z) :
  k ∈ py_range start stop ↔ start ≤ k < stop.
Proof. unfold py_range. rewrite elem_of_seqZ. lia. Qed.

Lemma elem_of_periods (ts : TimeSlot) (c : cell) :
  c ∈ periods ts ↔ c.1 = weekday ts ∧ start_period ts ≤ c.2 ≤ end_period ts.
Proof.
  unfold periods. rewrite list_elem_of_fmap. setoid_rewrite elem_of_py_range.
  destruct c as [d p]; simpl. split.
  - intros (q & [= -> ->] & ?). lia.
  - intros [-> ?]. exists p. split; [done | lia].
Qed.

Lemma periods_inverted (ts : TimeSlot) :
  end_period ts < start_period ts → periods ts = [].
Proof.
  intros H. unfold periods, py_range. rewrite seqZ_nil; [done | lia].
Qed.

Lemma all_periods_covered (s : Section) :
  all_periods s = list_to_set (covered (time_slots s)).
Proof.
  unfold all_periods, covered.
  assert (∀ l (acc : gset cell),
    foldl (λ result ts, result ∪ list_to_set (periods ts)) acc l
    = acc ∪ list_to_set (l ≫= periods)) as Hgen.
  { induction l as [|ts l IH]; intros acc; simpl.
    - set_solver.
    - rewrite IH, list_to_set_app_L. set_solver. }
  rewrite Hgen. set_solver.
Qed.

Lemma elem_of_all_periods (s : Section) (c : cell) :
  c ∈ all_periods s ↔ ∃ ts, ts ∈ time_slots s ∧ c ∈ periods ts.
Proof.
  rewrite all_periods_covered, elem_of_list_to_set. unfold covered.
  rewrite list_elem_of_bind. naive_solver.
Qed.

Lemma has_conflict_spec (slots : list TimeSlot) (occ : gset cell) :
  _has_conflict slots occ = false ↔ list_to_set (covered slots) ## occ.
Proof.
  unfold covered. induction slots as [|ts slots IH]; simpl.
  - split; [set_solver | done].
  - rewrite list_to_set_app_L.
    destruct (existsb _ _) eqn:Hex.
    + split; [done |]. intros Hdisj.
      apply existsb_exists in Hex as (p & Hp & Hocc).
      apply bool_decide_eq_true in Hocc.
      apply list_elem_of_In, elem_of_py_range in Hp.
      exfalso. apply (Hdisj (weekday ts, p)); [| done].
      apply elem_of_union_l, elem_of_list_to_set, elem_of_periods. simpl. lia.
    + rewrite IH. split; [| set_solver].
      intros Hdisj c Hc Hocc. apply elem_of_union in Hc as [Hc | Hc].
      * apply elem_of_list_to_set, elem_of_periods in Hc as [Hd Hp].
        destruct c as [d p]; simpl in *; subst d.
        assert (existsb (λ period, bool_decide ((weekday ts, period) ∈ occ))
                  (py_range (start_period ts) (end_period ts + 1)) = true) as Ht.
        { apply existsb_exists. exists p. split.
          - apply list_elem_of_In, elem_of_py_range. lia.
          - by apply bool_decide_eq_true. }
        congruence.
      * by apply (Hdisj c).
Qed.

Lemma has_conflict_section (s : Section) (occ : gset cell) :
  _has_conflict (time_slots s) occ = false ↔ all_periods s ## occ.
Proof. by rewrite has_conflict_spec, all_periods_covered. Qed.

Lemma occupy_spec (slots : list TimeSlot) (occ : gset cell) :
  _occupy slots occ = (covered slots, occ ∪ list_to_set (covered slots)).
Proof.
  unfold _occupy, covered.
  assert (∀ d l (added : list cell) (o : gset cell),
    foldl (λ '(added, occupied) period,
             let key := (d, period) in (added ++ [key], occupied ∪ {[key]}))
          (added, o) l
    = (added ++ ((λ p, (d, p)) <$> l),
       o ∪ list_to_set ((λ p, (d, p)) <$> l))) as Hinner.
  { intros d. induction l as [|p l IH]; intros added o; simpl.
    - rewrite app_nil_r. f_equal. set_solver.
    - rewrite IH, <- app_assoc. simpl. f_equal. set_solver. }
  assert (∀ l (added : list cell) (o : gset cell),
    foldl (λ acc ts,
             foldl (λ '(added, occupied) period,
                      let key := (weekday ts, period) in
                      (added ++ [key], occupied ∪ {[key]}))
                   acc (py_range (start_period ts) (end_period ts + 1)))
          (added, o) l
    = (added ++ (l ≫= periods), o ∪ list_to_set (l ≫= periods))) as Houter.
  { induction l as [|ts l IH]; intros added o; simpl.
    - rewrite app_nil_r. f_equal. set_solver.
    - rewrite Hinner, IH. fold (periods ts).
      rewrite <- app_assoc, list_to_set_app_L. f_equal. set_solver. }
  apply Houter.
Qed.

Lemma release_spec (added : list cell) (occ : gset cell) :
  _release added occ = occ ∖ list_to_set added.
Proof.
  unfold _release. revert occ. induction added as [|c added IH]; intros occ; simpl.
  - set_solver.
  - rewrite IH. set_solver.
Qed.

(** Releasing what a non-conflicting occupation added gives the set back. *)
Lemma release_occupy (slots : list TimeSlot) (occ : gset cell) :
  _has_conflict slots occ = false →
  _release (_occupy slots occ).1 (_occupy slots occ).2 = occ.
Proof.
  intros H%has_conflict_spec. rewrite occupy_spec, release_spec. simpl.
  set_solver.
Qed.

(** ** Enumerating the valid combinations *)

Lemma compatible_nil (occ : gset cell) : compatible occ [].
Proof. split; [constructor | exact I]. Qed.

Lemma compatible_cons (occ : gset cell) (s : Section) (ss : list Section) :
  compatible occ (s :: ss)
  ↔ all_periods s ## occ ∧ compatible (occ ∪ all_periods s) ss.
Proof.
  unfold compatible. simpl. rewrite Forall_cons.
  assert (Forall (λ s', all_periods s' ## occ ∪ all_periods s) ss
          ↔ Forall (λ s', all_periods s' ## occ) ss
            ∧ Forall (λ s', all_periods s ## all_periods s') ss) as ->.
  { rewrite <- Forall_and. apply Forall_proper; [| done].
    intros s'. set_solver. }
  tauto.
Qed.

Lemma compatible_empty (ss : list Section) : compatible ∅ ss ↔ conflict_free ss.
Proof.
  unfold compatible. split; [tauto |]. intros H. split; [| done].
  apply Forall_forall. intros s' _. set_solver.
Qed.

Lemma extensions_empty (courses : list Course) :
  extensions ∅ courses = valid_combinations courses.
Proof.
  unfold extensions, valid_combinations.
  apply list_filter_iff. intros ss. apply compatible_empty.
Qed.

Lemma extensions_nil (occ : gset cell) : extensions occ [] = [[]].
Proof.
  unfold extensions. simpl. rewrite filter_cons_True; [done |].
  apply compatible_nil.
Qed.

Lemma filter_compatible_cons (occ : gset cell) (s : Section) (X : list Schedule) :
  filter (compatible occ) ((s ::.) <$> X)
  = if decide (all_periods s ## occ)
    then (s ::.) <$> filter (compatible (occ ∪ all_periods s)) X
    else [].
Proof.
  induction X as [|ss X IH].
  - by case_decide.
  - rewrite fmap_cons, !filter_cons, IH.
    destruct (decide (all_periods s ## occ)) as [Hd | Hd].
    + destruct (decide (compatible (occ ∪ all_periods s) ss)) as [Hc | Hc].
      * rewrite decide_True; [done |]. by apply compatible_cons.
      * rewrite decide_False; [done |]. rewrite compatible_cons. tauto.
    + rewrite decide_False; [done |]. rewrite compatible_cons. tauto.
Qed.

Lemma filter_bind {A B : Type} (P : B → Prop) `{!∀ x, Decision (P x)}
    (f : A → list B) (l : list A) :
  filter P (l ≫= f) = l ≫= (λ x, filter P (f x)).
Proof.
  induction l as [|x l IH]; [done |].
  by rewrite !bind_cons, filter_app, IH.
Qed.

Lemma extensions_cons (occ : gset cell) (c : Course) (pending : list Course) :
  extensions occ (c :: pending)
  = s ← sections c; through pending occ s.
Proof.
  unfold through, extensions.
  change (combinations (c :: pending))
    with (s ← sections c; (s ::.) <$> combinations pending).
  rewrite filter_bind. apply list_bind_ext; [| done].
  intros s. apply filter_compatible_cons.
Qed.

Lemma take_app_budget {A : Type} (n n' : nat) (l1 l2 : list A) :
  n' = (n - length (take n l1))%nat →
  take n (l1 ++ l2) = take n l1 ++ take n' l2.
Proof.
  intros ->. rewrite take_app, length_take. f_equal.
  destruct (decide (length l1 ≤ n)%nat).
  - f_equal. lia.
  - replace (n - length l1)%nat with 0%nat by lia.
    by replace (n - n `min` length l1)%nat with 0%nat by lia.
Qed.

(** ** What one call of [_backtrack] does *)

Lemma try_section_empty (recurse : State → outcome State) (s : Section) (st : State) :
  time_slots s = [] →
  try_section recurse s st = (st' ← recurse (push s st); pop st').
Proof. intros H. unfold try_section. by rewrite H. Qed.

Lemma try_section_slots (recurse : State → outcome State) (s : Section) (st : State) :
  time_slots s ≠ [] →
  try_section recurse s st =
    if _has_conflict (time_slots s) (occupied st)
    then Returns (tick (EvQuery s) st)
    else
      st1 ← recurse (push s (occupy s (tick (EvQuery s) st)).2);
      st2 ← pop st1;
      Returns (release (occupy s (tick (EvQuery s) st)).1 st2).
Proof.
  intros H. unfold try_section. destruct (time_slots s) eqn:E; [done |].
  change (occupied (tick (EvQuery s) st)) with (occupied st).
  destruct (_has_conflict _ _); [done |].
  by destruct (occupy s (tick (EvQuery s) st)).
Qed.

Lemma pop_snoc r o (cur : list Section) (s : Section) t :
  pop {| results := r; occupied := o; current_choice := cur ++ [s]; trace := t |}
  = Returns {| results := r; occupied := o; current_choice := cur;
               trace := t ++ [EvPop] |}.
Proof.
  unfold pop. simpl. rewrite removelast_last.
  by destruct cur.
Qed.

Lemma all_periods_no_slots (s : Section) : time_slots s = [] → all_periods s = ∅.
Proof. intros H. unfold all_periods. by rewrite H. Qed.

Lemma fmap_snoc_prefix (cur : list Section) (s : Section) (X : list Schedule) :
  ((cur ++ [s]) ++.) <$> X = (cur ++.) <$> ((s ::.) <$> X).
Proof.
  rewrite <- list_fmap_compose. apply list_fmap_ext. intros _ ss _. simpl.
  by rewrite <- app_assoc.
Qed.

Section backtrack.
Variable max_results : Z.
Variable pending : list Course.
Hypothesis below : ∀ st,
  runs_to (_backtrack max_results pending st) st (found max_results pending st).

Lemma try_section_spec (s : Section) (st : State) :
  runs_to (try_section (_backtrack max_results pending) s st) st
    (take (Z.to_nat (max_results - Z.of_nat (length (results st))))
          ((current_choice st ++.) <$> through pending (occupied st) s)).
Proof.
  destruct st as [r o cur t]. unfold through. simpl.
  destruct (decide (time_slots s = [])) as [Hts | Hts].
  - rewrite try_section_empty by done.
    destruct (below (push s {| results := r; occupied := o;
                               current_choice := cur; trace := t |}))
      as [tr ->].
    simpl. rewrite pop_snoc. unfold found. simpl.
    rewrite (all_periods_no_slots s Hts).
    rewrite decide_True by set_solver.
    rewrite union_empty_r_L, fmap_snoc_prefix.
    eexists. simpl. by rewrite <- !app_assoc.
  - rewrite try_section_slots by done. simpl.
    destruct (_has_conflict (time_slots s) o) eqn:Hc.
    + rewrite decide_False.
      2:{ rewrite <- has_conflict_section. congruence. }
      rewrite fmap_nil, take_nil. eexists. simpl. by rewrite app_nil_r.
    + pose proof Hc as Hd. apply has_conflict_section in Hd.
      rewrite decide_True by done.
      unfold occupy. simpl. rewrite occupy_spec. simpl.
      match goal with |- runs_to (mbind _ (_backtrack _ _ ?st1)) _ _ =>
        destruct (below st1) as [tr ->] end.
      simpl. rewrite pop_snoc. simpl. unfold found. simpl.
      rewrite <- all_periods_covered, fmap_snoc_prefix.
      eexists. unfold release. simpl. f_equal. f_equal.
      * rewrite release_spec, <- all_periods_covered. set_solver.
      * by rewrite <- !app_assoc.
Qed.

Lemma loop_spec (secs : list Section) (st : State) :
  runs_to (for_each secs (try_section (_backtrack max_results pending)) st) st
    (take (Z.to_nat (max_results - Z.of_nat (length (results st))))
          ((current_choice st ++.) <$> (s ← secs; through pending (occupied st) s))).
Proof.
  revert st. induction secs as [|s secs IH]; intros st.
  - simpl. rewrite take_nil. exists []. rewrite !app_nil_r.
    by destruct st.
  - rewrite bind_cons, fmap_app.
    simpl for_each. destruct (try_section_spec s st) as [tr1 ->].
    simpl. match goal with |- runs_to (for_each _ _ ?st1) _ _ =>
      destruct (IH st1) as [tr2 ->] end.
    simpl. exists (tr1 ++ tr2). f_equal. f_equal.
    + rewrite <- app_assoc. f_equal. symmetry.
      apply take_app_budget. rewrite length_app. lia.
    + by rewrite app_assoc.
Qed.
End backtrack.

(** The complete effect of a call: the schedules of [found] are appended,
    the grid and the current choice are as before the call. *)
Lemma backtrack_spec (max_results : Z) (pending : list Course) (st : State) :
  runs_to (_backtrack max_results pending st) st (found max_results pending st).
Proof.
  revert st. induction pending as [|course pending IH]; intros st.
  - unfold found. rewrite extensions_nil. simpl _backtrack.
    change (results (tick EvEnter st)) with (results st).
    case_bool_decide as Hcap.
    + replace (Z.to_nat _) with 0%nat by lia. rewrite take_0.
      exists [EvEnter; EvCutoff]. unfold tick. simpl.
      by rewrite app_nil_r, <- app_assoc.
    + destruct (Z.to_nat _) as [|k] eqn:Hk; [lia |]. simpl.
      rewrite take_nil, app_nil_r.
      exists [EvEnter; EvAccept (current_choice st)]. unfold accept. simpl.
      by rewrite <- app_assoc.
  - simpl _backtrack. change (results (tick EvEnter st)) with (results st).
    case_bool_decide as Hcap.
    + unfold found. replace (Z.to_nat _) with 0%nat by lia. rewrite take_0.
      exists [EvEnter; EvCutoff]. unfold tick. simpl.
      by rewrite app_nil_r, <- app_assoc.
    + destruct (loop_spec max_results pending IH (sections course)
                  (tick EvEnter st)) as [tr ->].
      unfold found. rewrite extensions_cons. simpl.
      exists (EvEnter :: tr). by rewrite <- app_assoc.
Qed.

(** ** The whole of [solve] *)

Lemma solve_run_spec (courses : list Course) (max_results : Z) :
  ∃ run, solve_run courses max_results = Returns run
    ∧ printed run = skip_message <$> empty_courses courses
    ∧ returned run = enumeration courses max_results
    ∧ match search run with
      | None => valid_courses courses = []
      | Some st =>
          valid_courses courses ≠ []
          ∧ results st = returned run
          ∧ occupied st = ∅
          ∧ current_choice st = []
      end.
Proof.
  unfold solve_run, enumeration. destruct courses as [|c0 courses]; [by eexists |].
  destruct (valid_courses (c0 :: courses)) as [|v valid] eqn:Hvalid;
    [by eexists |].
  destruct (backtrack_spec max_results (sorted_courses (c0 :: courses))
              initial_state) as [tr ->].
  simpl. eexists. split; [done |]. simpl. split; [done |].
  unfold found. simpl. rewrite extensions_empty, Z.sub_0_r.
  rewrite list_fmap_id. by repeat split.
Qed.

Lemma solve_spec (courses : list Course) (max_results : Z) :
  solve courses max_results = Returns (enumeration courses max_results).
Proof.
  unfold solve.
  destruct (solve_run_spec courses max_results) as (run & -> & _ & <- & _).
  done.
Qed.

(** ** The order of the search: [sorted] is a stable sort *)

Section sorting.
Context {A : Type} (key : A → nat).

Lemma insert_by_Permutation (x : A) (l : list A) : insert_by key x l ≡ₚ x :: l.
Proof.
  induction l as [|y l IH]; simpl; [done |].
  case_decide; [done |]. by rewrite IH, Permutation_swap.
Qed.

Lemma py_sorted_Permutation (l : list A) : py_sorted key l ≡ₚ l.
Proof.
  induction l as [|x l IH]; simpl; [done |].
  by rewrite insert_by_Permutation, IH.
Qed.

Lemma insert_by_sorted (x : A) (l : list A) :
  StronglySorted (λ a b, key a ≤ key b)%nat l →
  StronglySorted (λ a b, key a ≤ key b)%nat (insert_by key x l).
Proof.
  induction l as [|y l IH]; simpl; intros Hl.
  - repeat constructor.
  - apply StronglySorted_cons in Hl as [Hy Hl]. case_decide as Hxy.
    + apply StronglySorted_cons. split.
      * constructor; [done |]. eapply Forall_impl; [exact Hy |].
        simpl. intros. lia.
      * by apply StronglySorted_cons.
    + apply StronglySorted_cons. split; [| by apply IH].
      rewrite insert_by_Permutation. constructor; [lia | done].
Qed.

Lemma py_sorted_sorted (l : list A) :
  StronglySorted (λ a b, key a ≤ key b)%nat (py_sorted key l).
Proof.
  induction l as [|x l IH]; simpl; [constructor |]. by apply insert_by_sorted.
Qed.

(** Elements of equal key stay in their input order. *)
Lemma insert_by_stable (k : nat) (x : A) (l : list A) :
  StronglySorted (λ a b, key a ≤ key b)%nat l →
  filter (λ a, key a = k) (insert_by key x l)
  = filter (λ a, key a = k) (x :: l).
Proof.
  induction l as [|y l IH]; simpl; intros Hl; [done |].
  apply StronglySorted_cons in Hl as [Hy Hl]. case_decide as Hxy; [done |].
  rewrite (filter_cons _ y), IH by done. rewrite !(filter_cons _ x), !(filter_cons _ y).
  repeat case_decide; try done. lia.
Qed.

Lemma py_sorted_stable (k : nat) (l : list A) :
  filter (λ a, key a = k) (py_sorted key l) = filter (λ a, key a = k) l.
Proof.
  induction l as [|x l IH]; simpl; [done |].
  rewrite insert_by_stable by apply py_sorted_sorted.
  by rewrite !filter_cons, IH.
Qed.

(** A list that is sorted already is left as it is. *)
Lemma py_sorted_id (l : list A) :
  StronglySorted (λ a b, key a ≤ key b)%nat l → py_sorted key l = l.
Proof.
  induction l as [|x l IH]; simpl; intros Hl; [done |].
  apply StronglySorted_cons in Hl as [Hx Hl]. rewrite IH by done.
  destruct l as [|y l]; simpl; [done |].
  rewrite decide_True; [done |]. by inversion Hx.
Qed.
End sorting.

Lemma sorted_courses_Permutation (courses : list Course) :
  sorted_courses courses ≡ₚ valid_courses courses.
Proof. apply py_sorted_Permutation. Qed.

Lemma sorted_courses_nonempty (courses : list Course) :
  Forall (λ c, sections c ≠ []) (sorted_courses courses).
Proof.
  rewrite sorted_courses_Permutation. unfold valid_courses.
  apply Forall_forall. intros c Hc. by apply list_elem_of_filter in Hc as [? _].
Qed.

Lemma sorted_courses_sorted (courses : list Course) :
  StronglySorted by_count (sorted_courses courses).
Proof. apply (py_sorted_sorted (λ c, length (sections c))). Qed.

Lemma sorted_courses_stable (k : nat) (courses : list Course) :
  filter (λ c, length (sections c) = k) (sorted_courses courses)
  = filter (λ c, length (sections c) = k) (valid_courses courses).
Proof. apply (py_sorted_stable (λ c, length (sections c))). Qed.

Lemma valid_courses_id (courses : list Course) :
  Forall (λ c, sections c ≠ []) courses → valid_courses courses = courses.
Proof.
  unfold valid_courses. induction 1 as [|c l Hc _ IH]; [done |].
  by rewrite filter_cons_True, IH.
Qed.

Lemma sorted_courses_id (courses : list Course) :
  Forall (λ c, sections c ≠ []) courses → StronglySorted by_count courses →
  sorted_courses courses = courses.
Proof.
  intros Hne Hs. unfold sorted_courses. rewrite valid_courses_id by done.
  by apply py_sorted_id.
Qed.

(** ** Membership in the enumeration *)

Lemma elem_of_combinations (courses : list Course) (ss : list Section) :
  ss ∈ combinations courses ↔ one_per_course courses ss.
Proof.
  unfold one_per_course. revert ss.
  induction courses as [|c courses IH]; intros ss; simpl.
  - rewrite list_elem_of_singleton. split; [intros ->; constructor |].
    by inversion 1.
  - rewrite list_elem_of_bind. setoid_rewrite list_elem_of_fmap. split.
    + intros (s & (ss' & -> & Hss') & Hs). constructor; [done |]. by apply IH.
    + inversion 1 as [|? s ? ss' Hs Hss']; subst.
      exists s. split; [| done]. exists ss'. split; [done |]. by apply IH.
Qed.

Lemma elem_of_valid_combinations (courses : list Course) (ss : list Section) :
  ss ∈ valid_combinations courses ↔ one_per_course courses ss ∧ conflict_free ss.
Proof.
  unfold valid_combinations.
  rewrite list_elem_of_filter, elem_of_combinations. tauto.
Qed.

Lemma elem_of_enumeration (courses : list Course) (m : Z) (ss : list Section) :
  ss ∈ enumeration courses m →
  one_per_course (sorted_courses courses) ss ∧ conflict_free ss.
Proof.
  unfold enumeration. destruct (valid_courses courses); [by intros ?%elem_of_nil |].
  intros H%subseteq_take. by apply elem_of_valid_combinations.
Qed.

Lemma conflict_free_lookup (ss : list Section) :
  conflict_free ss ↔
  ∀ i j si sj, i ≠ j → ss !! i = Some si → ss !! j = Some sj →
    all_periods si ## all_periods sj.
Proof.
  induction ss as [|s ss IH]; simpl.
  - split; [| done]. intros _ i j si sj _ Hi. by rewrite lookup_nil in Hi.
  - rewrite IH, Forall_lookup. split.
    + intros [Hhd Htl] [|i] [|j] si sj Hij Hi Hj; simpl in *; simplify_eq.
      * eauto.
      * symmetry. eauto.
      * eapply (Htl i j); eauto.
    + intros H. split.
      * intros j sj Hj. by apply (H 0%nat (S j) s sj).
      * intros i j si sj Hij Hi Hj. apply (H (S i) (S j)); auto.
Qed.

(** ** Sections that cover no cell *)

Lemma try_section_vacuous (m : Z) (pending : list Course) (s : Section) (st : State) :
  all_periods s = ∅ →
  runs_to (try_section (_backtrack m pending) s st) st
          (found m pending (push s st)).
Proof.
  intros Hs.
  destruct (try_section_spec m pending (backtrack_spec m pending) s st)
    as [tr ->].
  exists tr. f_equal. f_equal. f_equal. unfold found, through. simpl.
  rewrite Hs, decide_True by set_solver.
  by rewrite union_empty_r_L, fmap_snoc_prefix.
Qed.

Lemma compatible_vacuous (occ : gset cell) (s : Section) (ss : list Section) :
  all_periods s = ∅ → compatible occ ss → compatible occ (s :: ss).
Proof.
  intros Hs Hss. apply compatible_cons. rewrite Hs, union_empty_r_L.
  split; [set_solver | done].
Qed.

Lemma covered_inverted (slots : list TimeSlot) :
  Forall (λ ts, end_period ts < start_period ts) slots → covered slots = [].
Proof.
  unfold covered. induction 1 as [|ts slots Hts _ IH]; [done |].
  by rewrite bind_cons, IH, periods_inverted.
Qed.

(** ** The cutoff *)

Lemma backtrack_cutoff (m : Z) (pending : list Course) (st : State) :
  m ≤ Z.of_nat (length (results st)) →
  _backtrack m pending st = Returns (tick EvCutoff (tick EvEnter st)).
Proof.
  intros Hcap. destruct pending; simpl; by rewrite bool_decide_eq_true_2.
Qed.

Lemma try_section_at_cap (m : Z) (pending : list Course) (s : Section) (st : State) :
  m ≤ Z.of_nat (length (results st)) →
  try_section (_backtrack m pending) s st
  = Returns {| results := results st; occupied := occupied st;
               current_choice := current_choice st;
               trace := trace st ++ late_visit (occupied st) s |}.
Proof.
  intros Hcap. destruct st as [r o cur t]. unfold late_visit. simpl in *.
  destruct (decide (time_slots s = [])) as [Hts | Hts].
  - rewrite try_section_empty, Hts by done.
    rewrite backtrack_cutoff by done. unfold push, tick. simpl.
    rewrite pop_snoc. by rewrite <- !app_assoc.
  - rewrite try_section_slots by done. simpl.
    destruct (time_slots s) as [|ts0 slots] eqn:E; [done |]. rewrite <- E.
    destruct (_has_conflict (time_slots s) o) eqn:Hc; [done |].
    unfold occupy. simpl. rewrite occupy_spec. simpl.
    rewrite backtrack_cutoff by done. unfold tick. simpl.
    rewrite pop_snoc. unfold release. simpl. f_equal. f_equal.
    + apply has_conflict_spec in Hc. rewrite release_spec. set_solver.
    + by rewrite <- !app_assoc.
Qed.

Lemma loop_at_cap (m : Z) (pending : list Course) (secs : list Section) (st : State) :
  m ≤ Z.of_nat (length (results st)) →
  for_each secs (try_section (_backtrack m pending)) st
  = Returns {| results := results st; occupied := occupied st;
               current_choice := current_choice st;
               trace := trace st ++ (secs ≫= late_visit (occupied st)) |}.
Proof.
  revert st. induction secs as [|s secs IH]; intros st Hcap.
  - simpl. rewrite app_nil_r. by destruct st.
  - rewrite bind_cons. simpl for_each. rewrite try_section_at_cap by done.
    simpl. rewrite IH by done. simpl. by rewrite app_assoc.
Qed.

Lemma length_enumeration (courses : list Course) (m : Z) :
  Z.of_nat (length (enumeration courses m)) ≤ Z.max 0 m.
Proof.
  unfold enumeration. destruct (valid_courses courses); simpl; [lia |].
  rewrite length_take. lia.
Qed.

Lemma enumeration_filter (courses : list Course) (m : Z) :
  enumeration (filter (λ c, sections c ≠ []) courses) m = enumeration courses m.
Proof.
  assert (valid_courses (filter (λ c, sections c ≠ []) courses)
          = valid_courses courses) as Hv.
  { apply valid_courses_id, Forall_forall.
    intros c Hc. by apply list_elem_of_filter in Hc as [? _]. }
  unfold enumeration, sorted_courses. by rewrite Hv.
Qed.

(** ** Independence of the order of the courses *)

Section list_monad.
Context {A B : Type}.

Lemma bind_Permutation_ext (f g : A → list B) (l : list A) :
  (∀ x, x ∈ l → f x ≡ₚ g x) → l ≫= f ≡ₚ l ≫= g.
Proof.
  induction l as [|x l IH]; intros Hfg; [done |].
  rewrite !bind_cons. f_equiv.
  - apply Hfg. left.
  - apply IH. intros y Hy. apply Hfg. by right.
Qed.

Lemma bind_app_Permutation (f h : A → list B) (l : list A) :
  l ≫= (λ x, f x ++ h x) ≡ₚ (l ≫= f) ++ (l ≫= h).
Proof.
  induction l as [|x l IH]; [done |].
  rewrite !bind_cons, IH. rewrite <- !app_assoc. f_equiv.
  rewrite !app_assoc. f_equiv. apply Permutation_app_comm.
Qed.

Lemma filter_fmap_elem (P : B → Prop) (Q : A → Prop)
    `{!∀ y, Decision (P y)} `{!∀ x, Decision (Q x)} (g : A → B) (l : list A) :
  (∀ x, x ∈ l → P (g x) ↔ Q x) →
  filter P (g <$> l) = g <$> filter Q l.
Proof.
  induction l as [|x l IH]; intros HPQ; [done |].
  rewrite fmap_cons, !filter_cons, IH.
  2:{ intros y Hy. apply HPQ. by right. }
  pose proof (HPQ x (list_elem_of_here _ _)).
  repeat case_decide; try done; tauto.
Qed.
End list_monad.

Section list_monad_exchange.
Context {A B C : Type}.

Lemma bind_exchange (f : A → B → list C) (l1 : list A) (l2 : list B) :
  l1 ≫= (λ a, l2 ≫= f a) ≡ₚ l2 ≫= (λ b, l1 ≫= (λ a, f a b)).
Proof.
  induction l1 as [|a l1 IH].
  - simpl. induction l2 as [|b l2 IH2]; [done |]. by rewrite bind_cons.
  - rewrite bind_cons, IH, <- bind_app_Permutation.
    apply bind_Permutation_ext. intros b _. by rewrite bind_cons.
Qed.

Lemma fmap_bind (g : B → C) (f : A → list B) (l : list A) :
  g <$> (l ≫= f) = l ≫= (λ x, g <$> f x).
Proof.
  induction l as [|x l IH]; [done |]. by rewrite !bind_cons, fmap_app, IH.
Qed.
End list_monad_exchange.

Lemma conflict_free_Permutation (ss ss' : list Section) :
  ss ≡ₚ ss' → conflict_free ss ↔ conflict_free ss'.
Proof.
  assert (∀ l l' : list Section, l ≡ₚ l' → conflict_free l → conflict_free l')
    as Hdir.
  { induction 1 as [|s l l' Hperm IH|s1 s2 l|l l' l'' _ IH1 _ IH2]; simpl.
    - done.
    - intros [Hs Hl]. split; [by rewrite <- Hperm | auto].
    - rewrite !Forall_cons. intros [[H12 H2] [H1 Hl]]. repeat split; try done.
    - auto. }
  intros Hperm. split; apply Hdir; [done | by symmetry].
Qed.

Lemma length_combination (courses : list Course) (ss : list Section) :
  ss ∈ combinations courses → length ss = length courses.
Proof.
  intros H%elem_of_combinations. symmetry. by eapply Forall2_length.
Qed.

(** The combinations of a rearranged course list are the rearranged
    combinations. *)
Lemma combinations_Permutation (courses courses' : list Course) :
  courses ≡ₚ courses' →
  ∃ g, g <$> combinations courses ≡ₚ combinations courses'
     ∧ ∀ ss, ss ∈ combinations courses →
         same_selection courses ss courses' (g ss).
Proof.
  unfold same_selection.
  induction 1 as [|c l l' Hperm (g & Hg & Hsel)|c1 c2 l
                 |l l' l'' _ (g1 & Hg1 & Hsel1) _ (g2 & Hg2 & Hsel2)].
  - exists id. split; [by rewrite list_fmap_id | done].
  - exists (under_head g). split.
    + simpl. rewrite fmap_bind. apply bind_Permutation_ext. intros s _.
      rewrite <- list_fmap_compose, <- Hg, <- list_fmap_compose. done.
    + intros ss (s & (ss0 & -> & Hss0)%list_elem_of_fmap & _)%list_elem_of_bind.
      simpl. f_equiv. by apply Hsel.
  - exists swap_heads. split.
    + simpl. rewrite fmap_bind.
      erewrite (list_bind_ext _ (λ s2, s1 ← sections c1;
                  (λ ss0, s1 :: s2 :: ss0) <$> combinations l));
        [| | reflexivity].
      2:{ intros s2. rewrite <- list_fmap_compose, fmap_bind.
          apply list_bind_ext; [| done]. intros s1.
          by rewrite <- list_fmap_compose. }
      rewrite bind_exchange. apply reflexive_eq.
      apply list_bind_ext; [| done]. intros s1.
      rewrite fmap_bind. apply list_bind_ext; [| done]. intros s2.
      by rewrite <- list_fmap_compose.
    + intros ss (s2 & (ss1 & -> & Hss1)%list_elem_of_fmap & _)%list_elem_of_bind.
      apply list_elem_of_bind in Hss1
        as (s1 & (ss0 & -> & Hss0)%list_elem_of_fmap & _).
      simpl. apply Permutation_swap.
  - exists (g2 ∘ g1). split.
    + by rewrite list_fmap_compose, Hg1, Hg2.
    + intros ss Hss. simpl. rewrite Hsel1 by done. apply Hsel2.
      rewrite <- Hg1. by apply list_elem_of_fmap_2.
Qed.

Lemma selection_Permutation (courses courses' : list Course) (ss ss' : list Section) :
  ss ∈ combinations courses → ss' ∈ combinations courses' →
  same_selection courses ss courses' ss' → ss ≡ₚ ss'.
Proof.
  intros Hss%length_combination Hss'%length_combination Hsel.
  rewrite <- (snd_zip courses ss), <- (snd_zip courses' ss') by lia.
  unfold same_selection in Hsel. by rewrite Hsel.
Qed.

Lemma valid_combinations_Permutation (courses courses' : list Course) :
  courses ≡ₚ courses' →
  ∃ g, g <$> valid_combinations courses ≡ₚ valid_combinations courses'
     ∧ ∀ ss, ss ∈ valid_combinations courses →
         same_selection courses ss courses' (g ss).
Proof.
  intros (g & Hg & Hsel)%combinations_Permutation. exists g. split.
  - unfold valid_combinations. rewrite <- Hg.
    rewrite (filter_fmap_elem conflict_free conflict_free); [done |].
    intros ss Hss. symmetry. apply conflict_free_Permutation.
    apply (selection_Permutation courses courses'); [done | | by apply Hsel].
    rewrite <- Hg. by apply list_elem_of_fmap_2.
  - intros ss [_ Hss]%list_elem_of_filter. by apply Hsel.
Qed.

Lemma length_valid_combinations (courses courses' : list Course) :
  courses ≡ₚ courses' →
  length (valid_combinations courses) = length (valid_combinations courses').
Proof.
  intros (g & Hg & _)%valid_combinations_Permutation.
  by rewrite <- Hg, length_fmap.
Qed.

Lemma NoDup_combinations (courses : list Course) :
  Forall (λ c, NoDup (sections c)) courses → NoDup (combinations courses).
Proof.
  induction 1 as [|c courses Hc _ IH]; simpl.
  - apply NoDup_singleton.
  - apply NoDup_bind; [| | done].
    + intros s1 s2 ss _ _ (? & -> & _)%list_elem_of_fmap
        (? & [= -> _] & _)%list_elem_of_fmap. done.
    + intros s _. by apply (NoDup_fmap_2 _).
Qed.

Lemma valid_courses_Permutation (courses courses' : list Course) :
  courses ≡ₚ courses' → sorted_courses courses ≡ₚ sorted_courses courses'.
Proof.
  intros Hperm. rewrite !sorted_courses_Permutation. unfold valid_courses.
  by rewrite Hperm.
Qed.

(** Without cutoff [solve] returns the whole enumeration. *)
Lemma enumeration_all (courses : list Course) (m : Z) :
  valid_courses courses ≠ [] →
  Z.of_nat (length (valid_combinations (valid_courses courses))) < m →
  enumeration courses m = valid_combinations (sorted_courses courses).
Proof.
  intros Hne Hm. unfold enumeration.
  destruct (valid_courses courses) eqn:E; [done |]. rewrite <- E in *.
  apply take_ge.
  rewrite (length_valid_combinations _ _ (sorted_courses_Permutation courses)).
  lia.
Qed.

(** ** The scenarios of the specification, run *)

(** Scenario A: X = [Mon 1-2, Tue 1-2], Y = [Mon 1-2].  One schedule; Y has
    fewer sections, so its section comes first. *)
Example scenario_A : solve [course_X; course_Y] 100 = Returns [[y_mon; x_tue]].
Proof. vm_compute. reflexivity. Qed.

(** Scenario B: three courses of one section each, no overlap. *)
Example scenario_B :
  solve [course_B1; course_B2; course_B3] 100 = Returns [[b_mon; b_tue; b_wed]].
Proof. vm_compute. reflexivity. Qed.

(** Scenario C: two courses of two sections, no overlap at all. *)
Example scenario_C_all :
  solve [course_P; course_Q] 100
  = Returns [[p_mon; q_wed]; [p_mon; q_thu]; [p_tue; q_wed]; [p_tue; q_thu]].
Proof. vm_compute. reflexivity. Qed.

Example scenario_C : solve [course_P; course_Q] 1 = Returns [[p_mon; q_wed]].
Proof. vm_compute. reflexivity. Qed.

(** A course without sections is reported and left out. *)
Example scenario_skip :
  solve_run [course_none] 100
  = Returns {| printed := [skip_message course_none]; returned := [];
               search := None |}.
Proof. vm_compute. reflexivity. Qed.

(** The operations of one search with the cap at one schedule: after the
    schedule is accepted the second section of the course is still tried. *)
Example trace_at_cap :
  (λ run, trace <$> search run) <$> solve_run [course_X] 1
  = Returns (Some [EvEnter;
                   EvQuery x_mon; EvOccupy x_mon; EvPush x_mon;
                   EvEnter; EvAccept [x_mon];
                   EvPop; EvRelease [(0, 1); (0, 2)];
                   EvQuery x_tue; EvOccupy x_tue; EvPush x_tue;
                   EvEnter; EvCutoff;
                   EvPop; EvRelease [(1, 1); (1, 2)]]).
Proof. vm_compute. reflexivity. Qed.

(** Under the cutoff the order of the input shows in what is returned: the
    courses P and Q have equally many sections, and a course without
    sections leaves no combination with a section of every input course. *)
Example order_under_cutoff :
  valid_combinations [course_none; course_P; course_Q] = []
  ∧ solve [course_none; course_P; course_Q] 2
    = Returns [[p_mon; q_wed]; [p_mon; q_thu]]
  ∧ solve [course_none; course_Q; course_P] 2
    = Returns [[q_wed; p_mon]; [q_wed; p_tue]].
Proof. repeat split; vm_compute; reflexivity. Qed.

(** [trace] is a ghost: what a call does to [results], [occupied] and
    [current_choice] does not depend on it. *)
Lemma trace_is_ghost (m : Z) (pending : list Course) (st st' : State) :
  results st = results st' → occupied st = occupied st' →
  current_choice st = current_choice st' →
  ∃ r r', _backtrack m pending st = Returns r
    ∧ _backtrack m pending st' = Returns r'
    ∧ results r = results r' ∧ occupied r = occupied r'
    ∧ current_choice r = current_choice r'.
Proof.
  intros Hr Ho Hc.
  destruct (backtrack_spec m pending st) as [tr ->].
  destruct (backtrack_spec m pending st') as [tr' ->].
  do 2 eexists. split; [done |]. split; [done |]. simpl.
  unfold found. by rewrite Hr, Ho, Hc.
Qed.

(** * The claims *)

(** C1.  Every schedule that [solve] returns is conflict-free: two sections
    at different positions of the schedule cover disjoint sets of
    (weekday, period) cells.  This holds for every course list and every
    [max_results], and [solve] does return. *)
Theorem solve_disjointness (courses : list Course) (max_results : Z) :
  ∃ l, solve courses max_results = Returns l ∧
    ∀ schedule, schedule ∈ l →
      ∀ i j si sj, i ≠ j →
        schedule !! i = Some si → schedule !! j = Some sj →
        all_periods si ## all_periods sj.
Proof.
  exists (enumeration courses max_results). split; [apply solve_spec |].
  intros schedule [_ Hfree]%elem_of_enumeration.
  by apply conflict_free_lookup.
Qed.

(** C2, as stated, fails: for the empty course list the one valid
    combination, the empty one, is not returned, whatever [max_results]. *)
Lemma empty_combination_omitted :
  ¬ (Z.of_nat (length (valid_combinations [])) < 2 →
     ∃ l, solve [] 2 = Returns l
        ∧ ∀ schedule, schedule ∈ valid_combinations [] → schedule ∈ l).
Proof.
  intros H. destruct H as (l & Hrun & Hall); [reflexivity |].
  injection Hrun as <-.
  specialize (Hall [] (list_elem_of_here _ _)). by apply elem_of_nil in Hall.
Qed.

(** C2, amended.  Let at least one course have a section, and let
    [max_results] be strictly larger than the number of conflict-free
    combinations of the courses that have sections.  Then [solve] returns
    exactly the conflict-free ways to pick one listed section per course of
    the search order, each once and none left out; the list has no
    duplicates when no course lists a section twice.  For any reordering of
    the input the returned schedules are, one for one, the same selections
    of a section per course. *)
Theorem complete_without_cutoff (courses courses' : list Course) (max_results : Z) :
  valid_courses courses ≠ [] →
  Z.of_nat (length (valid_combinations (valid_courses courses))) < max_results →
  courses ≡ₚ courses' →
  ∃ l l', solve courses max_results = Returns l
    ∧ solve courses' max_results = Returns l'
    ∧ l = valid_combinations (sorted_courses courses)
    ∧ l' = valid_combinations (sorted_courses courses')
    ∧ (∀ schedule, schedule ∈ l ↔
         one_per_course (sorted_courses courses) schedule ∧ conflict_free schedule)
    ∧ (Forall (λ c, NoDup (sections c)) courses → NoDup l)
    ∧ ∃ g, g <$> l ≡ₚ l'
         ∧ ∀ schedule, schedule ∈ l →
             same_selection (sorted_courses courses) schedule
                            (sorted_courses courses') (g schedule).
Proof.
  intros Hne Hm Hperm.
  assert (valid_courses courses ≡ₚ valid_courses courses') as Hvalid.
  { unfold valid_courses. by rewrite Hperm. }
  assert (valid_courses courses' ≠ []) as Hne'.
  { intros E. rewrite E in Hvalid. by apply Permutation_nil_r in Hvalid. }
  exists (enumeration courses max_results), (enumeration courses' max_results).
  rewrite !solve_spec. split; [done |]. split; [done |].
  rewrite (enumeration_all courses) by done.
  rewrite (enumeration_all courses').
  2: done.
  2:{ by rewrite <- (length_valid_combinations _ _ Hvalid). }
  split; [done |]. split; [done |].
  split; [apply elem_of_valid_combinations |]. split.
  - intros Hnodup. apply NoDup_filter, NoDup_combinations.
    rewrite sorted_courses_Permutation. unfold valid_courses.
    apply Forall_forall. intros c [_ Hc]%list_elem_of_filter.
    by eapply Forall_forall in Hnodup.
  - apply valid_combinations_Permutation. by apply valid_courses_Permutation.
Qed.

(** C2, amended, at X and Y given in both orders, with a cap of 100. *)
Lemma complete_without_cutoff_witness :
  valid_courses [course_X; course_Y] ≠ []
  ∧ Z.of_nat (length (valid_combinations (valid_courses [course_X; course_Y]))) < 100
  ∧ [course_X; course_Y] ≡ₚ [course_Y; course_X]
  ∧ ∃ l l', solve [course_X; course_Y] 100 = Returns l
      ∧ solve [course_Y; course_X] 100 = Returns l'
      ∧ l = valid_combinations (sorted_courses [course_X; course_Y]).
Proof.
  assert (valid_courses [course_X; course_Y] ≠ []) as Hne
    by (vm_compute; discriminate).
  assert (Z.of_nat (length (valid_combinations
            (valid_courses [course_X; course_Y]))) < 100) as Hm
    by (vm_compute; reflexivity).
  assert ([course_X; course_Y] ≡ₚ [course_Y; course_X]) as Hperm
    by apply Permutation_swap.
  split; [exact Hne |]. split; [exact Hm |]. split; [exact Hperm |].
  destruct (complete_without_cutoff [course_X; course_Y] [course_Y; course_X]
              100 Hne Hm Hperm) as (l & l' & Hl & Hl' & Heq & _).
  exists l, l'. by repeat split.
Defined.

(** C3, as stated, fails twice.  With [max_results = 1] and one course of
    two sections, the second section is still queried, occupied and pushed
    after the first schedule was accepted; and with [max_results = -1] the
    empty list that is returned is longer than [max_results]. *)
Lemma search_goes_on_at_cap :
  ¬ stops_at_cap [course_X] 1 ∧ ¬ stops_at_cap [course_X] (-1).
Proof.
  split; intros H.
  - destruct (solve_run [course_X] 1) as [run |] eqn:Hrun; [| by vm_compute in Hrun].
    destruct (H run Hrun) as [_ Hstop].
    vm_compute in Hrun. injection Hrun as <-.
    specialize (Hstop _ eq_refl). vm_compute in Hstop.
    apply Forall_cons in Hstop as [_ Hstop].
    apply Forall_cons in Hstop as [_ Hstop].
    apply Forall_cons in Hstop as [Hquery _]. discriminate.
  - destruct (solve_run [course_X] (-1)) as [run |] eqn:Hrun; [| by vm_compute in Hrun].
    destruct (H run Hrun) as [Hlen _].
    vm_compute in Hrun. injection Hrun as <-. simpl in Hlen. lia.
Qed.

(** C3, amended.  [solve] returns at most [max(0, max_results)] schedules,
    so never more than a [max_results] that is not negative.  Once the
    number of accepted schedules has reached [max_results], every call of
    [_backtrack] returns at its first check: it accepts nothing and goes
    into no course.  A loop over the sections of a course that is running
    then still visits each remaining section (query, and unless it
    conflicts: occupy, push, the call that returns at once, pop, release);
    it leaves [results], [occupied] and [current_choice] as they are. *)
Theorem cap_respected (max_results : Z) :
  (∀ courses, ∃ l, solve courses max_results = Returns l
     ∧ Z.of_nat (length l) ≤ Z.max 0 max_results)
  ∧ (∀ pending st, max_results ≤ Z.of_nat (length (results st)) →
       _backtrack max_results pending st
       = Returns (tick EvCutoff (tick EvEnter st)))
  ∧ (∀ pending secs st, max_results ≤ Z.of_nat (length (results st)) →
       for_each secs (try_section (_backtrack max_results pending)) st
       = Returns {| results := results st; occupied := occupied st;
                    current_choice := current_choice st;
                    trace := trace st ++ (secs ≫= late_visit (occupied st)) |}).
Proof.
  split; [| split].
  - intros courses. exists (enumeration courses max_results).
    split; [apply solve_spec | apply length_enumeration].
  - intros pending st. apply backtrack_cutoff.
  - intros pending secs st. apply loop_at_cap.
Qed.

(** C4, as stated, fails: with X (two sections) given before Y (one
    section), the returned schedule lists the section of Y first. *)
Lemma schedule_not_in_input_order :
  ¬ (∀ l, solve [course_X; course_Y] 100 = Returns l →
       ∀ schedule, schedule ∈ l → one_per_course [course_X; course_Y] schedule).
Proof.
  intros H.
  assert (solve [course_X; course_Y] 100 = Returns [[y_mon; x_tue]]) as Hrun
    by (vm_compute; reflexivity).
  specialize (H _ Hrun [y_mon; x_tue] (list_elem_of_here _ _)).
  inversion H as [|???? Hy _]; subst.
  revert Hy. apply not_elem_of_cons. split; [discriminate |].
  apply not_elem_of_cons. split; [discriminate |]. apply not_elem_of_nil.
Qed.

(** C4, amended.  Every schedule that [solve] returns has exactly one
    section per course of the search order, in that order.  The search
    order is the input without its zero-section courses, sorted by
    ascending number of sections, courses with equally many sections in
    input order.  An input that is sorted already and has no zero-section
    course is its own search order. *)
Theorem schedule_in_search_order (courses : list Course) (max_results : Z) :
  ∃ l, solve courses max_results = Returns l
    ∧ (∀ schedule, schedule ∈ l →
         one_per_course (sorted_courses courses) schedule)
    ∧ sorted_courses courses ≡ₚ filter (λ c, sections c ≠ []) courses
    ∧ StronglySorted by_count (sorted_courses courses)
    ∧ (∀ k, filter (λ c, length (sections c) = k) (sorted_courses courses)
            = filter (λ c, length (sections c) = k)
                (filter (λ c, sections c ≠ []) courses))
    ∧ (Forall (λ c, sections c ≠ []) courses → StronglySorted by_count courses →
       sorted_courses courses = courses).
Proof.
  exists (enumeration courses max_results). split; [apply solve_spec |].
  split; [| split; [| split; [| split]]].
  - by intros schedule [Hone _]%elem_of_enumeration.
  - apply sorted_courses_Permutation.
  - apply sorted_courses_sorted.
  - intros k. apply sorted_courses_stable.
  - apply sorted_courses_id.
Qed.

(** C5.  The occupied set is restored after each branch: trying a section
    (with everything below it), a whole run of sibling sections, and a
    whole call of [_backtrack] each return with [occupied] (and
    [current_choice]) as they found it; the search that [solve] ran ends
    with an empty occupied set. *)
Theorem occupied_restored (max_results : Z) :
  (∀ pending section st, ∃ st',
      try_section (_backtrack max_results pending) section st = Returns st'
      ∧ occupied st' = occupied st ∧ current_choice st' = current_choice st)
  ∧ (∀ pending secs st, ∃ st',
      for_each secs (try_section (_backtrack max_results pending)) st = Returns st'
      ∧ occupied st' = occupied st ∧ current_choice st' = current_choice st)
  ∧ (∀ pending st, ∃ st',
      _backtrack max_results pending st = Returns st'
      ∧ occupied st' = occupied st ∧ current_choice st' = current_choice st)
  ∧ (∀ courses, ∃ run,
      solve_run courses max_results = Returns run
      ∧ match search run with
        | Some st => occupied st = ∅
        | None => True
        end).
Proof.
  split; [| split; [| split]].
  - intros pending section st.
    destruct (try_section_spec max_results pending
                (backtrack_spec max_results pending) section st) as [tr ->].
    by eexists.
  - intros pending secs st.
    destruct (loop_spec max_results pending
                (backtrack_spec max_results pending) secs st) as [tr ->].
    by eexists.
  - intros pending st.
    destruct (backtrack_spec max_results pending st) as [tr ->]. by eexists.
  - intros courses.
    destruct (solve_run_spec courses max_results) as (run & -> & _ & _ & Hst).
    exists run. split; [done |]. by destruct (search run) as [st |]; [tauto |].
Qed.

(** C6.  A section whose [time_slots] is empty covers no cell and conflicts
    with no grid.  The loop body does, at whatever state it is run, just
    this with it: push, the recursive call, pop; the push leaves the
    occupied set alone.  So the call adds exactly the schedules found below
    the section, and adding the section to a compatible schedule keeps it
    compatible. *)
Theorem empty_time_slots_eligible (section : Section) :
  time_slots section = [] →
  all_periods section = ∅
  ∧ (∀ occ, _has_conflict (time_slots section) occ = false)
  ∧ (∀ recurse st,
       try_section recurse section st = (st' ← recurse (push section st); pop st'))
  ∧ (∀ st, occupied (push section st) = occupied st)
  ∧ (∀ m pending st,
       runs_to (try_section (_backtrack m pending) section st) st
               (found m pending (push section st)))
  ∧ (∀ occ schedule, compatible occ schedule → compatible occ (section :: schedule)).
Proof.
  intros Hts. pose proof (all_periods_no_slots section Hts) as Hnone.
  split; [done |]. split; [by rewrite Hts |].
  split; [intros; by apply try_section_empty |]. split; [done |].
  split.
  - intros m pending st. by apply try_section_vacuous.
  - intros occ schedule. by apply compatible_vacuous.
Qed.

(** C6 at a section without time slots. *)
Lemma empty_time_slots_eligible_witness :
  time_slots free_section = []
  ∧ ∀ occ, _has_conflict (time_slots free_section) occ = false.
Proof.
  split; [reflexivity |].
  apply (empty_time_slots_eligible free_section). reflexivity.
Defined.

(** C7, as stated, fails: for an empty course list [solve] does not return
    the one empty schedule. *)
Lemma solve_empty_not_single : solve [] 100 ≠ Returns [[]].
Proof. discriminate. Qed.

(** C7, amended.  Calling [solve] with an empty course list returns no
    schedule at all: the empty list, with nothing printed and no search
    run. *)
Theorem solve_empty (max_results : Z) :
  solve [] max_results = Returns []
  ∧ solve_run [] max_results
    = Returns {| printed := []; returned := []; search := None |}.
Proof. by split. Qed.

(** C8.  Courses without sections are skipped, one printed line for each,
    and the search runs over the other courses: [solve] returns what it
    returns for the input without its zero-section courses. *)
Theorem zero_section_courses_skipped (courses : list Course) (max_results : Z) :
  ∃ run, solve_run courses max_results = Returns run
    ∧ printed run = skip_message <$> filter (λ c, sections c = []) courses
    ∧ solve courses max_results = Returns (returned run)
    ∧ solve (filter (λ c, sections c ≠ []) courses) max_results
      = Returns (returned run)
    ∧ sorted_courses (filter (λ c, sections c ≠ []) courses)
      = sorted_courses courses.
Proof.
  destruct (solve_run_spec courses max_results) as (run & Hrun & Hout & Hret & _).
  exists run. rewrite Hret, !solve_spec, enumeration_filter.
  repeat split; try done.
  unfold sorted_courses. f_equal. apply valid_courses_id, Forall_forall.
  intros c Hc. by apply list_elem_of_filter in Hc as [? _].
Qed.

(** C9, as stated, fails: with [max_results = -1] no error is raised. *)
Lemma negative_cap_not_raised : ¬ ∃ e, solve [course_X; course_Y] (-1) = Raises e.
Proof. intros [e He]. vm_compute in He. discriminate. Qed.

(** C9, amended.  [solve] checks no argument and raises nothing: called
    with a negative [max_results] it returns the empty list, whatever the
    courses. *)
Theorem solve_negative_cap (courses : list Course) (max_results : Z) :
  max_results < 0 → solve courses max_results = Returns [].
Proof.
  intros Hneg. rewrite solve_spec. f_equal.
  pose proof (length_enumeration courses max_results) as Hlen.
  destruct (enumeration courses max_results); [done |]. simpl in Hlen. lia.
Qed.

(** C9, amended, at [max_results = -1]. *)
Lemma solve_negative_cap_witness :
  -1 < 0 ∧ solve [course_X; course_Y] (-1) = Returns [].
Proof.
  split; [reflexivity |]. apply (solve_negative_cap [course_X; course_Y] (-1)).
  reflexivity.
Defined.

(** C10.  A time slot that ends before it starts covers no cell.  A
    section whose time slots are all such covers no cell, conflicts with no
    grid and adds nothing when it is occupied; trying it adds exactly the
    schedules found below it, as for a section without time slots, and
    adding it to a compatible schedule keeps the schedule compatible. *)
Theorem inverted_time_slots_vacuous (section : Section) :
  Forall (λ ts, end_period ts < start_period ts) (time_slots section) →
  Forall (λ ts, periods ts = []) (time_slots section)
  ∧ all_periods section = ∅
  ∧ (∀ occ, _has_conflict (time_slots section) occ = false)
  ∧ (∀ occ, _occupy (time_slots section) occ = ([], occ))
  ∧ (∀ m pending st,
       runs_to (try_section (_backtrack m pending) section st) st
               (found m pending (push section st)))
  ∧ (∀ occ schedule, compatible occ schedule → compatible occ (section :: schedule)).
Proof.
  intros Hinv. pose proof (covered_inverted _ Hinv) as Hcov.
  assert (all_periods section = ∅) as Hnone.
  { by rewrite all_periods_covered, Hcov. }
  split; [| split; [done | split; [| split; [| split]]]].
  - eapply Forall_impl; [exact Hinv |]. intros ts. apply periods_inverted.
  - intros occ. apply has_conflict_section. rewrite Hnone. set_solver.
  - intros occ. rewrite occupy_spec, Hcov. simpl. by rewrite union_empty_r_L.
  - intros m pending st. by apply try_section_vacuous.
  - intros occ schedule. by apply compatible_vacuous.
Qed.

(** C10 at a section with the time slots Mon 5-3 and Wed 9-1. *)
Lemma inverted_time_slots_vacuous_witness :
  Forall (λ ts, end_period ts < start_period ts) (time_slots inverted_section)
  ∧ all_periods inverted_section = ∅.
Proof.
  assert (Forall (λ ts, end_period ts < start_period ts)
            (time_slots inverted_section)) as Hinv.
  { repeat constructor. }
  split; [exact Hinv |].
  apply (inverted_time_slots_vacuous inverted_section Hinv).
Defined.

(** * Beyond the claims *)

(** ** The grid functions of [solver.py] *)

(** X1.  [_has_conflict] returns True exactly when a cell covered by one of
    the time slots is occupied; for the time slots of a section this is
    when [all_periods] of the section meets the occupied set. *)
Theorem has_conflict_true_iff (slots : list TimeSlot) (occ : gset cell) :
  (_has_conflict slots occ = true ↔
     ∃ ts p, ts ∈ slots ∧ start_period ts ≤ p ≤ end_period ts
             ∧ (weekday ts, p) ∈ occ)
  ∧ ∀ s, _has_conflict (time_slots s) occ = true ↔ ¬ all_periods s ## occ.
Proof.
  split.
  - induction slots as [|ts0 slots IH]; simpl.
    + split; [done |]. intros (ts & p & Hts & _). by apply elem_of_nil in Hts.
    + destruct (existsb _ _) eqn:Hex.
      * split; [intros _ | done].
        apply existsb_exists in Hex as (p & Hp & Hocc).
        apply bool_decide_eq_true in Hocc.
        apply list_elem_of_In, elem_of_py_range in Hp.
        exists ts0, p. split; [left |]. split; [lia | done].
      * rewrite IH. split.
        -- intros (ts & p & Hts & Hp & Hocc). exists ts, p. split; [by right | done].
        -- intros (ts & p & Hts & Hp & Hocc).
           apply elem_of_cons in Hts as [-> | Hts]; [| by exists ts, p].
           assert (existsb (λ period, bool_decide ((weekday ts0, period) ∈ occ))
                     (py_range (start_period ts0) (end_period ts0 + 1)) = true)
             as Ht; [| congruence].
           apply existsb_exists. exists p. split.
           ++ apply list_elem_of_In, elem_of_py_range. lia.
           ++ by apply bool_decide_eq_true.
  - intros s. rewrite <- has_conflict_section.
    by destruct (_has_conflict (time_slots s) occ).
Qed.

(** X2.  [_occupy] puts into [added] every cell that a time slot covers, in
    slot order and once for each slot covering it, whether or not the cell
    was occupied before; the occupied set grows by exactly these cells. *)
Theorem occupy_token (slots : list TimeSlot) (occ : gset cell) :
  (_occupy slots occ).1 = slots ≫= periods
  ∧ (_occupy slots occ).2 = occ ∪ list_to_set (slots ≫= periods)
  ∧ length (_occupy slots occ).1
    = sum_list_with (λ ts, Z.to_nat (end_period ts - start_period ts + 1)) slots.
Proof.
  rewrite occupy_spec. unfold covered. simpl. split; [done |]. split; [done |].
  induction slots as [|ts slots IH]; [done |].
  rewrite bind_cons, length_app, IH. simpl. f_equal.
  unfold periods, py_range. rewrite length_fmap, length_seqZ. f_equal. lia.
Qed.

(** X3.  [_release] of what [_occupy] added leaves the old occupied set
    without the covered cells; this is the old set again exactly when
    [_has_conflict] was False, otherwise the cells that clashed are freed. *)
Theorem release_after_occupy (slots : list TimeSlot) (occ : gset cell) :
  _release (_occupy slots occ).1 (_occupy slots occ).2
  = occ ∖ list_to_set (slots ≫= periods)
  ∧ (_release (_occupy slots occ).1 (_occupy slots occ).2 = occ
     ↔ _has_conflict slots occ = false).
Proof.
  rewrite occupy_spec, release_spec, has_conflict_spec. unfold covered. simpl.
  split; [set_solver |]. split.
  - intros Heq c Hc Hocc. rewrite <- Heq in Hocc. set_solver.
  - set_solver.
Qed.

(** ** More on [solve] *)

Lemma enumeration_valid (courses : list Course) (m : Z) :
  valid_courses courses ≠ [] →
  enumeration courses m
  = take (Z.to_nat m) (valid_combinations (sorted_courses courses)).
Proof. unfold enumeration. by destruct (valid_courses courses). Qed.

Lemma valid_combinations_nil_Permutation (courses courses' : list Course) :
  courses ≡ₚ courses' →
  valid_combinations courses = [] → valid_combinations courses' = [].
Proof.
  intros Hlen%length_valid_combinations Hnil. rewrite Hnil in Hlen.
  by destruct (valid_combinations courses').
Qed.

(** X4.  A smaller cap returns a prefix: the schedules for [max_results = m]
    are the first [m] of those for any larger cap, in the same order. *)
Theorem solve_cap_prefix (courses : list Course) (m m' : Z) :
  m ≤ m' →
  ∃ l', solve courses m' = Returns l'
      ∧ solve courses m = Returns (take (Z.to_nat m) l').
Proof.
  intros Hle. exists (enumeration courses m'). rewrite !solve_spec.
  split; [done |]. f_equal. unfold enumeration.
  destruct (valid_courses courses); [by rewrite take_nil |].
  rewrite take_take. f_equal. lia.
Qed.

(** X4 at the courses P and Q with the caps 1 and 3. *)
Lemma solve_cap_prefix_witness :
  1 ≤ 3 ∧ ∃ l', solve [course_P; course_Q] 3 = Returns l'
              ∧ solve [course_P; course_Q] 1 = Returns (take (Z.to_nat 1) l').
Proof.
  split; [lia |]. apply (solve_cap_prefix [course_P; course_Q] 1 3). lia.
Defined.

(** X5.  With a cap of at least one and a course that has sections, [solve]
    returns the empty list exactly when the courses that have sections
    admit no conflict-free choice of one section each. *)
Theorem solve_nothing_iff_unsatisfiable (courses : list Course) (m : Z) :
  1 ≤ m → valid_courses courses ≠ [] →
  solve courses m = Returns [] ↔
  ∀ schedule, one_per_course (valid_courses courses) schedule →
              ¬ conflict_free schedule.
Proof.
  intros Hm Hne. rewrite solve_spec, enumeration_valid by done.
  pose proof (sorted_courses_Permutation courses) as Hperm.
  split.
  - intros [= Htake] schedule Hone Hfree.
    assert (valid_combinations (sorted_courses courses) = []) as Hnil.
    { destruct (valid_combinations (sorted_courses courses)); [done |].
      destruct (Z.to_nat m) eqn:Hk; [lia | done]. }
    clear Htake.
    apply (valid_combinations_nil_Permutation _ _ Hperm) in Hnil.
    assert (schedule ∈ valid_combinations (valid_courses courses)) as Hin
      by by apply elem_of_valid_combinations.
    rewrite Hnil in Hin. by apply elem_of_nil in Hin.
  - intros Hnone. f_equal.
    rewrite (valid_combinations_nil_Permutation (valid_courses courses));
      [by rewrite take_nil | done |].
    destruct (valid_combinations (valid_courses courses)) as [|x xs] eqn:Hv; [done |].
    assert (x ∈ valid_combinations (valid_courses courses)) as Hx
      by (rewrite Hv; left).
    apply elem_of_valid_combinations in Hx as [Hone Hfree].
    by destruct (Hnone x).
Qed.

(** X5 at two courses whose only sections clash. *)
Lemma solve_nothing_iff_unsatisfiable_witness :
  1 ≤ 100 ∧ valid_courses [course_Y; course_Y] ≠ []
  ∧ (solve [course_Y; course_Y] 100 = Returns [] ↔
     ∀ schedule, one_per_course (valid_courses [course_Y; course_Y]) schedule →
                 ¬ conflict_free schedule).
Proof.
  assert (valid_courses [course_Y; course_Y] ≠ []) as Hne
    by (vm_compute; discriminate).
  split; [lia |]. split; [exact Hne |].
  apply (solve_nothing_iff_unsatisfiable [course_Y; course_Y] 100); [lia | exact Hne].
Defined.

Lemma valid_combinations_twice (c : Course) (rest : list Course) :
  (∀ s1 s2, s1 ∈ sections c → s2 ∈ sections c →
            ¬ all_periods s1 ## all_periods s2) →
  valid_combinations (c :: c :: rest) = [].
Proof.
  intros Hclash.
  destruct (valid_combinations (c :: c :: rest)) as [|x xs] eqn:Hv; [done |].
  assert (x ∈ valid_combinations (c :: c :: rest)) as Hx by (rewrite Hv; left).
  apply elem_of_valid_combinations in Hx as [Hone Hfree].
  inversion Hone as [|? s1 ? ss1 Hs1 Hone1]; subst.
  inversion Hone1 as [|? s2 ? ss2 Hs2 _]; subst.
  simpl in Hfree. destruct Hfree as [Hhead _].
  apply Forall_cons in Hhead as [H12 _]. by destruct (Hclash s1 s2).
Qed.

Lemma enumeration_twice (courses rest : list Course) (c : Course) (m : Z) :
  courses ≡ₚ c :: c :: rest →
  sections c ≠ [] →
  (∀ s1 s2, s1 ∈ sections c → s2 ∈ sections c →
            ¬ all_periods s1 ## all_periods s2) →
  enumeration courses m = [].
Proof.
  intros Hperm Hne Hclash.
  assert (sorted_courses courses ≡ₚ c :: c :: valid_courses rest) as Hsorted.
  { rewrite sorted_courses_Permutation. unfold valid_courses.
    rewrite Hperm. by rewrite !filter_cons_True by done. }
  unfold enumeration. destruct (valid_courses courses); [done |].
  rewrite (valid_combinations_nil_Permutation (c :: c :: valid_courses rest));
    [by rewrite take_nil | done |].
  by apply valid_combinations_twice.
Qed.

(** X6.  A course that is listed twice needs two sections that do not
    overlap: when every two sections of it overlap (as when it has one
    section, with a time slot), [solve] returns no schedule. *)
Theorem solve_course_listed_twice (courses rest : list Course) (c : Course) (m : Z) :
  courses ≡ₚ c :: c :: rest →
  sections c ≠ [] →
  (∀ s1 s2, s1 ∈ sections c → s2 ∈ sections c →
            ¬ all_periods s1 ## all_periods s2) →
  solve courses m = Returns [].
Proof.
  intros Hperm Hne Hclash. rewrite solve_spec. f_equal.
  by eapply enumeration_twice.
Qed.

(** X6 at the course Y, listed before and after X. *)
Lemma solve_course_listed_twice_witness :
  course_YY ≡ₚ course_Y :: course_Y :: [course_X]
  ∧ solve course_YY 100 = Returns [].
Proof.
  assert (course_YY ≡ₚ course_Y :: course_Y :: [course_X]) as Hperm.
  { unfold course_YY. apply perm_skip, perm_swap. }
  split; [exact Hperm |].
  apply (solve_course_listed_twice course_YY [course_X] course_Y 100 Hperm).
  - discriminate.
  - intros s1 s2 ->%list_elem_of_singleton ->%list_elem_of_singleton Hd.
    apply (Hd (0, 1)); apply elem_of_all_periods; exists (slot 0 1 2);
      (split; [left | apply elem_of_periods; simpl; lia]).
Defined.

Lemma length_valid_empty (courses : list Course) :
  (length (valid_courses courses) + length (empty_courses courses))%nat
  = length courses.
Proof.
  unfold valid_courses, empty_courses.
  induction courses as [|c courses IH]; [done |].
  rewrite !filter_cons. destruct (decide (sections c = [])) as [Hc | Hc].
  - rewrite decide_False by tauto. simpl. lia.
  - rewrite decide_True by done. simpl. lia.
Qed.

(** X7.  The course count that [print_solve_summary] prints for the input
    of [solve] is the length of every returned schedule plus the number of
    courses that [solve] reported as skipped. *)
Theorem summary_counts_skipped_courses (courses : list Course) (m : Z) :
  ∃ run, solve_run courses m = Returns run
    ∧ ∀ schedule, schedule ∈ returned run →
        print_solve_summary courses (returned run) !! 2%nat
        = Some ("  课程数: "
                +:+ pretty (length schedule + length (printed run))%nat).
Proof.
  destruct (solve_run_spec courses m) as (run & -> & Hout & Hret & _).
  exists run. split; [done |]. intros schedule Hin. rewrite Hret in Hin.
  apply elem_of_enumeration in Hin as [Hone _].
  apply Forall2_length in Hone.
  rewrite (Permutation_length (sorted_courses_Permutation courses)) in Hone.
  rewrite Hout, length_fmap, <- Hone, length_valid_empty. done.
Qed.

(** ** The data model *)

(** X8.  [periods] lists the cells of a time slot, one for each period from
    start to end and each once: end - start + 1 cells, none when the slot
    ends before it starts.  [all_periods] holds exactly the cells of the
    time slots of the section. *)
Theorem periods_cells (ts : TimeSlot) :
  length (periods ts) = Z.to_nat (end_period ts - start_period ts + 1)
  ∧ NoDup (periods ts)
  ∧ (∀ c, c ∈ periods ts ↔
          c.1 = weekday ts ∧ start_period ts ≤ c.2 ≤ end_period ts)
  ∧ ∀ s c, c ∈ all_periods s ↔ ∃ ts', ts' ∈ time_slots s ∧ c ∈ periods ts'.
Proof.
  split; [| split; [| split]].
  - unfold periods, py_range. rewrite length_fmap, length_seqZ. f_equal. lia.
  - unfold periods, py_range. apply NoDup_fmap_2; [| apply NoDup_seqZ].
    by intros p q [= ->].
  - apply elem_of_periods.
  - apply elem_of_all_periods.
Qed.

(** X9.  [TimeSlot.__str__] raises IndexError for a weekday below -5; a
    weekday from -5 to -1 is printed as the weekday five later (a negative
    list index counts from the end); 0 to 4 are printed by their names and
    a weekday from 5 on as its number. *)
Theorem TimeSlot_str_weekday (ts : TimeSlot) :
  (weekday ts < -5 → TimeSlot_str ts = Raises IndexError)
  ∧ (-5 ≤ weekday ts < 0 →
       TimeSlot_str ts = TimeSlot_str (on_weekday (weekday ts + 5) ts))
  ∧ (0 ≤ weekday ts < 5 →
       ∃ wd, WEEKDAY_NAMES !! Z.to_nat (weekday ts) = Some wd
           ∧ TimeSlot_str ts
             = Returns (wd +:+ " 第" +:+ pretty (start_period ts) +:+ "-"
                           +:+ pretty (end_period ts) +:+ "节"))
  ∧ (5 ≤ weekday ts →
       TimeSlot_str ts
       = Returns ("星期" +:+ pretty (weekday ts) +:+ " 第"
                  +:+ pretty (start_period ts) +:+ "-"
                  +:+ pretty (end_period ts) +:+ "节")).
Proof.
  destruct ts as [d a b]. unfold TimeSlot_str, on_weekday, py_getitem. simpl.
  split; [| split; [| split]].
  - intros Hd. rewrite bool_decide_eq_true_2 by lia.
    rewrite (bool_decide_eq_true_2 (d < 0)) by lia.
    by rewrite bool_decide_eq_false_2 by lia.
  - intros Hd.
    assert (d = -5 ∨ d = -4 ∨ d = -3 ∨ d = -2 ∨ d = -1) as Hcases by lia.
    destruct Hcases as [-> | [-> | [-> | [-> | ->]]]]; reflexivity.
  - intros Hd.
    assert (d = 0 ∨ d = 1 ∨ d = 2 ∨ d = 3 ∨ d = 4) as Hcases by lia.
    destruct Hcases as [-> | [-> | [-> | [-> | ->]]]]; eexists; split; reflexivity.
  - intros Hd. by rewrite bool_decide_eq_false_2 by lia.
Qed.

(** X9 at the weekdays -6, -1, 4 and 6. *)
Lemma TimeSlot_str_weekday_witness :
  TimeSlot_str (slot (-6) 1 2) = Raises IndexError
  ∧ TimeSlot_str (slot (-1) 1 2) = TimeSlot_str (slot 4 1 2)
  ∧ (∃ wd, WEEKDAY_NAMES !! 4%nat = Some wd
         ∧ TimeSlot_str (slot 4 1 2) = Returns (wd +:+ " 第1-2节"))
  ∧ TimeSlot_str (slot 6 1 2) = Returns "星期6 第1-2节".
Proof.
  destruct (TimeSlot_str_weekday (slot (-6) 1 2)) as (Hlow & _).
  destruct (TimeSlot_str_weekday (slot (-1) 1 2)) as (_ & Hneg & _).
  destruct (TimeSlot_str_weekday (slot 4 1 2)) as (_ & _ & Hname & _).
  destruct (TimeSlot_str_weekday (slot 6 1 2)) as (_ & _ & _ & Hnum).
  split; [apply Hlow; simpl; lia |].
  split; [apply Hneg; simpl; lia |].
  split; [apply Hname; simpl; lia | apply Hnum; simpl; lia].
Defined.

Lemma TimeSlot_str_raises (ts : TimeSlot) :
  weekday ts < -5 → TimeSlot_str ts = Raises IndexError.
Proof.
  destruct ts as [d a b]. unfold TimeSlot_str, py_getitem. simpl.
  intros Hd. rewrite bool_decide_eq_true_2 by lia.
  rewrite (bool_decide_eq_true_2 (d < 0)) by lia.
  by rewrite bool_decide_eq_false_2 by lia.
Qed.

Lemma TimeSlot_str_returns (ts : TimeSlot) :
  -5 ≤ weekday ts → ∃ str, TimeSlot_str ts = Returns str.
Proof.
  destruct ts as [d a b]. unfold TimeSlot_str, py_getitem. simpl. intros Hd.
  destruct (decide (d < 5)) as [Hlt | Hge].
  - assert (d = -5 ∨ d = -4 ∨ d = -3 ∨ d = -2 ∨ d = -1
            ∨ d = 0 ∨ d = 1 ∨ d = 2 ∨ d = 3 ∨ d = 4) as Hcases by lia.
    destruct Hcases as [-> | [-> | [-> | [-> | [-> | [-> | [-> | [-> | [-> | ->]]]]]]]]];
      eexists; reflexivity.
  - rewrite bool_decide_eq_false_2 by lia. by eexists.
Qed.

Lemma for_list_returns {A B : Type} (f : A → outcome B) (l : list A) :
  Forall (λ x, ∃ y, f x = Returns y) l → ∃ ys, for_list f l = Returns ys.
Proof.
  induction 1 as [|x l [y Hy] _ [ys IH]]; simpl; [by eexists |].
  rewrite Hy. simpl. rewrite IH. by eexists.
Qed.

Lemma for_list_raises {A B : Type} (f : A → outcome B) (l : list A) (e : PyExc) :
  Forall (λ x, (∃ y, f x = Returns y) ∨ f x = Raises e) l →
  Exists (λ x, f x = Raises e) l →
  for_list f l = Raises e.
Proof.
  induction 1 as [|x l Hx Hl IH]; intros Hex; [by inversion Hex |].
  simpl. destruct Hx as [[y Hy] | Hx]; [| by rewrite Hx].
  rewrite Hy. simpl. rewrite IH; [done |].
  inversion Hex as [?? Hbad | ]; subst; [congruence | done].
Qed.

(** X10.  [Section.__str__] returns a string when every time slot of the
    section has a weekday of at least -5, and raises IndexError when one
    does not. *)
Theorem Section_str_weekday (s : Section) :
  (Forall (λ ts, -5 ≤ weekday ts) (time_slots s) →
     ∃ str, Section_str s = Returns str)
  ∧ (Exists (λ ts, weekday ts < -5) (time_slots s) →
     Section_str s = Raises IndexError).
Proof.
  unfold Section_str. split.
  - intros Hall.
    destruct (for_list_returns TimeSlot_str (time_slots s)) as [strs ->];
      [| by eexists].
    eapply Forall_impl; [exact Hall |]. apply TimeSlot_str_returns.
  - intros Hex. rewrite (for_list_raises _ _ IndexError); [done | |].
    + apply Forall_forall. intros ts _.
      destruct (decide (weekday ts < -5)) as [Hlt | Hge].
      * right. by apply TimeSlot_str_raises.
      * left. apply TimeSlot_str_returns. lia.
    + eapply Exists_impl; [exact Hex |]. intros ts. apply TimeSlot_str_raises.
Qed.

(** X10 at a section on a Monday and at one on the weekday -6. *)
Lemma Section_str_weekday_witness :
  (∃ str, Section_str x_mon = Returns str)
  ∧ Section_str (mk_section "X" "X-0" [slot 0 1 2; slot (-6) 1 2]) = Raises IndexError.
Proof.
  destruct (Section_str_weekday x_mon) as (Hgood & _).
  destruct (Section_str_weekday (mk_section "X" "X-0" [slot 0 1 2; slot (-6) 1 2]))
    as (_ & Hbad).
  split.
  - apply Hgood. repeat constructor; simpl; lia.
  - apply Hbad. right. left. simpl. lia.
Defined.

(** ** The display *)

Lemma py_getitem_nonneg {A : Type} (l : list A) (i : Z) (x : A) :
  0 ≤ i → l !! Z.to_nat i = Some x → py_getitem l i = Returns x.
Proof.
  intros Hi Hx. unfold py_getitem.
  pose proof (lookup_lt_Some _ _ _ Hx).
  rewrite (bool_decide_eq_false_2 (i < 0)) by lia.
  rewrite bool_decide_eq_true_2 by lia. by rewrite Hx.
Qed.

Lemma get_color_lookup (index : Z) :
  ∃ c, _get_color index = Returns c
     ∧ COLORS !! Z.to_nat (index `mod` 12) = Some c.
Proof.
  unfold _get_color. change (Z.of_nat (length COLORS)) with 12.
  pose proof (Z.mod_pos_bound index 12) as Hmod.
  destruct (lookup_lt_is_Some_2 COLORS (Z.to_nat (index `mod` 12))) as [c Hc].
  { change (length COLORS) with 12%nat. lia. }
  exists c. split; [apply py_getitem_nonneg; [lia | done] | done].
Qed.

(** X11.  [_get_color] returns one of the twelve colours for every integer
    index, a negative one too, and repeats with period twelve. *)
Theorem get_color_total (index : Z) :
  ∃ c, _get_color index = Returns c
     ∧ c ∈ COLORS
     ∧ COLORS !! Z.to_nat (index `mod` 12) = Some c
     ∧ _get_color (index + 12) = _get_color index.
Proof.
  destruct (get_color_lookup index) as (c & Hget & Hc).
  exists c. split; [done |].
  split; [by eapply list_elem_of_lookup_2 |]. split; [done |].
  unfold _get_color.
  replace (index + 12) with (index + 1 * 12) by lia.
  change (Z.of_nat (length COLORS)) with 12. by rewrite Z_mod_plus_full.
Qed.

Lemma dict_fromkeys_go (acc keys : list string) :
  NoDup acc →
  NoDup (foldl (λ acc k, if bool_decide (k ∈ acc) then acc else acc ++ [k]) acc keys)
  ∧ ∀ k, k ∈ foldl (λ acc k, if bool_decide (k ∈ acc) then acc else acc ++ [k]) acc keys
         ↔ k ∈ acc ∨ k ∈ keys.
Proof.
  revert acc. induction keys as [|k0 keys IH]; intros acc Hacc; simpl.
  - split; [done |]. intros k. rewrite elem_of_nil. tauto.
  - case_bool_decide as Hin.
    + destruct (IH acc Hacc) as [Hnd Hel]. split; [done |].
      intros k. rewrite Hel, elem_of_cons. naive_solver.
    + destruct (IH (acc ++ [k0])) as [Hnd Hel].
      { apply NoDup_app. split; [done |]. split; [| apply NoDup_singleton].
        intros x Hx ->%list_elem_of_singleton. done. }
      split; [done |]. intros k.
      rewrite Hel, elem_of_app, list_elem_of_singleton, elem_of_cons. tauto.
Qed.

Lemma dict_fromkeys_spec (keys : list string) :
  NoDup (dict_fromkeys keys) ∧ ∀ k, k ∈ dict_fromkeys keys ↔ k ∈ keys.
Proof.
  destruct (dict_fromkeys_go [] keys (NoDup_nil_2)) as [Hnd Hel].
  split; [done |]. intros k. unfold dict_fromkeys. rewrite Hel, elem_of_nil. tauto.
Qed.

Lemma color_map_go (names : list string) (j : nat) (m0 : gmap string string) :
  NoDup names →
  ∃ m, for_each (imap (λ i name, (Z.of_nat (j + i), name)) names)
                (λ '(i, name) color_map,
                   c ← _get_color i; Returns (<[name := c]> color_map))
                m0 = Returns m
     ∧ (∀ i k, names !! i = Some k →
               m !! k = COLORS !! Z.to_nat (Z.of_nat (j + i) `mod` 12))
     ∧ (∀ k, k ∉ names → m !! k = m0 !! k).
Proof.
  revert j m0. induction names as [|n names IH]; intros j m0 Hnd.
  - exists m0. split; [done |]. split; [| done]. intros i k Hi.
    by rewrite lookup_nil in Hi.
  - apply NoDup_cons in Hnd as [Hn Hnd].
    rewrite imap_cons. simpl for_each.
    destruct (get_color_lookup (Z.of_nat (j + 0))) as (c & -> & Hc).
    simpl.
    destruct (IH (S j) (<[n := c]> m0) Hnd) as (m & Hrun & Hidx & Hout).
    exists m. split.
    + rewrite <- Hrun. f_equal. apply imap_ext. intros i x _. simpl.
      do 2 f_equal. lia.
    + split.
      * intros [|i] k Hi; simpl in Hi.
        -- injection Hi as <-. rewrite Hout by done.
           by rewrite lookup_insert_eq, Hc.
        -- rewrite (Hidx i k Hi). do 3 f_equal. lia.
      * intros k Hk. apply not_elem_of_cons in Hk as [Hkn Hk].
        rewrite Hout by done. by rewrite lookup_insert_ne.
Qed.

Lemma color_map_colors_aux (schedule : list Section) :
  ∃ cm, color_map_of schedule = Returns cm.
Proof.
  unfold color_map_of.
  destruct (dict_fromkeys_spec (course_name <$> schedule)) as [Hnd _].
  destruct (color_map_go (dict_fromkeys (course_name <$> schedule)) 0 ∅ Hnd)
    as (cm & Hrun & _).
  by exists cm.
Qed.

Lemma NoDup_COLORS : NoDup COLORS.
Proof. apply (bool_decide_unpack (NoDup COLORS)). vm_compute. exact I. Qed.

(** X12.  The colours of [display_schedule]: every section gets one of
    the twelve colours, never the fallback white; the course name that
    comes [i]-th among the distinct course names of the schedule gets the
    colour [i mod 12]; so with at most twelve distinct course names,
    different course names have different colours. *)
Theorem color_map_colors (schedule : list Section) :
  ∃ cm, color_map_of schedule = Returns cm
    ∧ (∀ s, s ∈ schedule →
         is_Some (cm !! course_name s) ∧ color_of cm s ∈ COLORS)
    ∧ (∀ s i, dict_fromkeys (course_name <$> schedule) !! i = Some (course_name s) →
         COLORS !! Z.to_nat (Z.of_nat i `mod` 12) = Some (color_of cm s))
    ∧ ((length (dict_fromkeys (course_name <$> schedule)) ≤ 12)%nat →
       ∀ s1 s2, s1 ∈ schedule → s2 ∈ schedule →
         course_name s1 ≠ course_name s2 → color_of cm s1 ≠ color_of cm s2).
Proof.
  unfold color_map_of.
  destruct (dict_fromkeys_spec (course_name <$> schedule)) as [Hnd Hel].
  destruct (color_map_go (dict_fromkeys (course_name <$> schedule)) 0 ∅ Hnd)
    as (cm & Hrun & Hidx & _).
  exists cm. split; [exact Hrun |].
  assert (∀ s i, dict_fromkeys (course_name <$> schedule) !! i
                 = Some (course_name s) →
            COLORS !! Z.to_nat (Z.of_nat i `mod` 12) = Some (color_of cm s)
            ∧ is_Some (cm !! course_name s)) as Hcol.
  { intros s i Hi. specialize (Hidx i _ Hi). simpl in Hidx.
    pose proof (Z.mod_pos_bound (Z.of_nat i) 12) as Hmod.
    destruct (lookup_lt_is_Some_2 COLORS (Z.to_nat (Z.of_nat i `mod` 12)))
      as [c Hc].
    { change (length COLORS) with 12%nat. lia. }
    unfold color_of. rewrite Hidx, Hc. by split; [| eexists]. }
  assert (∀ s, s ∈ schedule →
            ∃ i, dict_fromkeys (course_name <$> schedule) !! i
                 = Some (course_name s)) as Hpos.
  { intros s Hs. apply list_elem_of_lookup_1, Hel. by apply list_elem_of_fmap_2. }
  split; [| split].
  - intros s Hs. destruct (Hpos s Hs) as [i Hi].
    destruct (Hcol s i Hi) as [Hc Hsome]. split; [done |].
    by eapply list_elem_of_lookup_2.
  - intros s i Hi. by apply Hcol.
  - intros Hlen s1 s2 Hs1 Hs2 Hne Heq.
    destruct (Hpos s1 Hs1) as [i1 Hi1]. destruct (Hpos s2 Hs2) as [i2 Hi2].
    destruct (Hcol s1 i1 Hi1) as [Hc1 _]. destruct (Hcol s2 i2 Hi2) as [Hc2 _].
    pose proof (lookup_lt_Some _ _ _ Hi1). pose proof (lookup_lt_Some _ _ _ Hi2).
    rewrite Z.mod_small in Hc1, Hc2 by lia. rewrite !Nat2Z.id, Heq in *.
    pose proof (NoDup_lookup _ _ _ _ NoDup_COLORS Hc1 Hc2) as ->.
    congruence.
Qed.

Lemma fill_periods_lookup (grid : gmap cell Entry) (d : Z) (ps : list Z)
    (e : Entry) (c : cell) :
  foldl (λ grid period, <[(d, period) := e]> grid) grid ps !! c
  = if decide (c ∈ (λ p, (d, p)) <$> ps) then Some e else grid !! c.
Proof.
  revert grid. induction ps as [|p ps IH]; intros grid.
  - rewrite decide_False; [done | apply not_elem_of_nil].
  - rewrite fmap_cons. cbn [foldl]. rewrite IH.
    destruct (decide (c ∈ (λ p, (d, p)) <$> ps)) as [Hin | Hout].
    + case_decide as Hcons; [done |]. destruct Hcons. by right.
    + destruct (decide (c = (d, p))) as [-> | Hne].
      * case_decide as Hcons; [| destruct Hcons; left].
        by rewrite lookup_insert_eq.
      * case_decide as Hcons.
        -- apply elem_of_cons in Hcons as [? | ?]; done.
        -- by rewrite lookup_insert_ne.
Qed.

Lemma fill_slots_lookup (grid : gmap cell Entry) (slots : list TimeSlot)
    (e : Entry) (c : cell) :
  foldl (λ grid ts,
           foldl (λ grid period, <[(weekday ts, period) := e]> grid)
                 grid (py_range (start_period ts) (end_period ts + 1)))
        grid slots !! c
  = if decide (c ∈ covered slots) then Some e else grid !! c.
Proof.
  unfold covered. revert grid. induction slots as [|ts slots IH]; intros grid.
  - rewrite decide_False; [done | apply not_elem_of_nil].
  - rewrite bind_cons. cbn [foldl]. rewrite IH, fill_periods_lookup.
    fold (periods ts).
    repeat case_decide; try done; exfalso;
      match goal with H : context [_ ++ _] |- _ => rewrite elem_of_app in H end;
      tauto.
Qed.

Lemma fill_grid_go (cm : gmap string string) (schedule : list Section)
    (grid0 : gmap cell Entry) (c : cell) :
  foldl (λ grid section,
           let color := color_of cm section in
           foldl (λ grid ts,
                    foldl (λ grid period,
                             <[(weekday ts, period) :=
                                 (course_name section, teacher section, color)]> grid)
                          grid (py_range (start_period ts) (end_period ts + 1)))
                 grid (time_slots section))
        grid0 schedule !! c
  = match last_owner schedule c with
    | Some s => Some (entry_of cm s)
    | None => grid0 !! c
    end.
Proof.
  unfold last_owner. revert grid0.
  induction schedule as [|s schedule IH]; intros grid0; [done |].
  cbn [foldl]. rewrite IH. rewrite filter_cons. cbv zeta.
  assert (c ∈ all_periods s ↔ c ∈ covered (time_slots s)) as Hcov
    by by rewrite all_periods_covered, elem_of_list_to_set.
  destruct (last (filter (λ s0, c ∈ all_periods s0) schedule)) as [s' |] eqn:Hlast.
  - case_decide; [| by rewrite Hlast]. by rewrite last_cons, Hlast.
  - etrans; [apply (fill_slots_lookup grid0 (time_slots s)
                      (course_name s, teacher s, color_of cm s) c) |].
    repeat case_decide; try tauto.
    + by rewrite last_cons, Hlast.
    + by rewrite Hlast.
Qed.

Lemma grid_shows_last_owner_aux (cm : gmap string string)
    (schedule : list Section) (c : cell) :
  fill_grid cm schedule !! c = entry_of cm <$> last_owner schedule c.
Proof.
  unfold fill_grid. rewrite fill_grid_go.
  by destruct (last_owner schedule c).
Qed.

(** X13.  A cell of the grid of [display_schedule] shows the last section
    of the schedule that covers it (a later section overwrites an earlier
    one); a cell that no section covers is not in the grid. *)
Theorem grid_shows_last_owner (cm : gmap string string) (schedule : list Section)
    (c : cell) :
  fill_grid cm schedule !! c = entry_of cm <$> last_owner schedule c.
Proof. apply grid_shows_last_owner_aux. Qed.

Lemma last_owner_conflict_free (schedule : list Section) (s : Section) (c : cell) :
  conflict_free schedule → s ∈ schedule → c ∈ all_periods s →
  last_owner schedule c = Some s.
Proof.
  intros Hfree Hs Hc. unfold last_owner.
  destruct (last (filter (λ s0, c ∈ all_periods s0) schedule)) as [s' |] eqn:Hlast.
  - f_equal. apply last_Some_elem_of, list_elem_of_filter in Hlast as [Hc' Hs'].
    apply list_elem_of_lookup_1 in Hs as [i Hi].
    apply list_elem_of_lookup_1 in Hs' as [j Hj].
    destruct (decide (i = j)) as [-> | Hij]; [congruence |].
    pose proof (proj1 (conflict_free_lookup schedule) Hfree i j s s' Hij Hi Hj)
      as Hdisj.
    by destruct (Hdisj c).
  - apply last_None in Hlast.
    assert (s ∈ filter (λ s0, c ∈ all_periods s0) schedule) as Hin
      by by apply list_elem_of_filter.
    rewrite Hlast in Hin. by apply elem_of_nil in Hin.
Qed.

(** X14.  For a schedule that [solve] returns nothing is overwritten in the
    grid: every cell that a section of the schedule covers shows that
    section (its course name, teacher and colour). *)
Theorem grid_of_solved_schedule (courses : list Course) (m : Z) :
  ∃ l, solve courses m = Returns l
     ∧ ∀ schedule cm s c, schedule ∈ l → s ∈ schedule → c ∈ all_periods s →
         fill_grid cm schedule !! c = Some (entry_of cm s).
Proof.
  exists (enumeration courses m). split; [apply solve_spec |].
  intros schedule cm s c [_ Hfree]%elem_of_enumeration Hs Hc.
  rewrite grid_shows_last_owner_aux.
  by rewrite (last_owner_conflict_free schedule s c).
Qed.

Lemma table_rows_ext (len : string → nat) (upto : nat → string → string)
    (grid grid' : gmap cell Entry) :
  (∀ wd p, 0 ≤ wd ≤ 4 → 1 ≤ p ≤ 11 → grid !! (wd, p) = grid' !! (wd, p)) →
  table_rows len upto grid = table_rows len upto grid'.
Proof.
  intros Hsame. unfold table_rows. apply list_fmap_ext.
  intros i p Hp%list_elem_of_lookup_2%elem_of_py_range.
  unfold table_row. f_equal. apply list_fmap_ext.
  intros j wd Hwd%list_elem_of_lookup_2%elem_of_py_range.
  unfold table_cell. by rewrite Hsame by lia.
Qed.

Lemma off_week_not_covering (s : Section) (wd p : Z) :
  0 ≤ wd ≤ 4 → (wd, p) ∈ all_periods s → ¬ off_week s.
Proof.
  intros Hwd (ts & Hts & Hc)%elem_of_all_periods Hoff.
  apply elem_of_periods in Hc as [Hd _]. simpl in Hd.
  unfold off_week in Hoff. rewrite Forall_forall in Hoff.
  specialize (Hoff ts Hts). lia.
Qed.

Lemma filter_off_week_nil (schedule : list Section) :
  Forall off_week schedule → filter (λ s, ¬ off_week s) schedule = [].
Proof.
  induction 1 as [|s l Hs _ IH]; [done |].
  by rewrite filter_cons_False by tauto.
Qed.

(** X15.  The table of [display_schedule] reads the grid only at the cells
    of Monday to Friday, periods 1 to 11.  So the sections that have no
    time slot from Monday to Friday (a Saturday or Sunday section, weekday
    5 or 6) change nothing in the table: it is the table of the schedule
    without them, and the empty table when all sections are such. *)
Theorem table_shows_weekdays_only (len : string → nat)
    (upto : nat → string → string) (cm : gmap string string)
    (schedule : list Section) :
  (∀ grid grid',
     (∀ wd p, 0 ≤ wd ≤ 4 → 1 ≤ p ≤ 11 → grid !! (wd, p) = grid' !! (wd, p)) →
     table_rows len upto grid = table_rows len upto grid')
  ∧ table_rows len upto (fill_grid cm schedule)
    = table_rows len upto (fill_grid cm (filter (λ s, ¬ off_week s) schedule))
  ∧ (Forall off_week schedule →
     table_rows len upto (fill_grid cm schedule) = table_rows len upto ∅).
Proof.
  assert (∀ wd p, 0 ≤ wd ≤ 4 →
            fill_grid cm schedule !! (wd, p)
            = fill_grid cm (filter (λ s, ¬ off_week s) schedule) !! (wd, p))
    as Hkeep.
  { intros wd p Hwd. rewrite !grid_shows_last_owner_aux. f_equal.
    unfold last_owner. f_equal. rewrite list_filter_filter.
    apply list_filter_iff. intros s. split; [| tauto].
    intros Hc. split; [done |]. by eapply off_week_not_covering. }
  split; [apply table_rows_ext |]. split.
  - apply table_rows_ext. intros wd p Hwd _. by apply Hkeep.
  - intros Hoff. apply table_rows_ext. intros wd p Hwd _.
    rewrite Hkeep by done. by rewrite filter_off_week_nil.
Qed.

(** X15 at a schedule of one Saturday section. *)
Lemma table_shows_weekdays_only_witness :
  table_rows String.length (λ n s, String.substring 0 n s) (fill_grid ∅ [x_sat])
  = table_rows String.length (λ n s, String.substring 0 n s) ∅.
Proof.
  destruct (table_shows_weekdays_only String.length
              (λ n s, String.substring 0 n s) ∅ [x_sat]) as (_ & _ & Hoff).
  apply Hoff. repeat constructor. simpl. lia.
Defined.

Lemma for_list_length {A B : Type} (f : A → outcome B) (l : list A) (ys : list B) :
  for_list f l = Returns ys → length ys = length l.
Proof.
  revert ys. induction l as [|x l IH]; intros ys; simpl.
  - by intros [= <-].
  - destruct (f x); [| done]. simpl.
    destruct (for_list f l) as [ys' |]; [| done]. simpl.
    intros [= <-]. simpl. f_equal. by apply IH.
Qed.

Lemma detail_line_returns (cm : gmap string string) (s : Section) :
  Forall (λ ts, -5 ≤ weekday ts) (time_slots s) →
  ∃ line, detail_line cm s = Returns line.
Proof.
  intros Hall. unfold detail_line.
  destruct (for_list_returns TimeSlot_str (time_slots s)) as [strs ->];
    [| by eexists].
  eapply Forall_impl; [exact Hall |]. apply TimeSlot_str_returns.
Qed.

Lemma detail_line_raises (cm : gmap string string) (s : Section) :
  Exists (λ ts, weekday ts < -5) (time_slots s) →
  detail_line cm s = Raises IndexError.
Proof.
  intros Hex. unfold detail_line.
  rewrite (for_list_raises _ _ IndexError); [done | |].
  - apply Forall_forall. intros ts _.
    destruct (decide (weekday ts < -5)) as [Hlt | Hge].
    + right. by apply TimeSlot_str_raises.
    + left. apply TimeSlot_str_returns. lia.
  - eapply Exists_impl; [exact Hex |]. intros ts. apply TimeSlot_str_raises.
Qed.

Lemma detail_line_cases (cm : gmap string string) (s : Section) :
  (∃ line, detail_line cm s = Returns line) ∨ detail_line cm s = Raises IndexError.
Proof.
  destruct (decide (Forall (λ ts, -5 ≤ weekday ts) (time_slots s))) as [Hall | Hnot].
  - left. by apply detail_line_returns.
  - right. apply detail_line_raises. apply not_Forall_Exists in Hnot; [| apply _].
    eapply Exists_impl; [exact Hnot |]. simpl. intros ts. lia.
Qed.

Lemma display_schedule_returns (len : string → nat)
    (upto : nat → string → string) (schedule : list Section) (i total : Z) :
  displayable schedule →
  ∃ cm details,
    color_map_of schedule = Returns cm
    ∧ length details = length schedule
    ∧ display_schedule len upto schedule i total
      = Returns ([PrintTable (scheme_title total i) ("节次" :: WEEKDAY_NAMES)
                             (table_rows len upto (fill_grid cm schedule));
                  PrintLine ""]
                 ++ (PrintLine <$> details) ++ [PrintLine ""]).
Proof.
  intros Hall. unfold display_schedule.
  destruct (color_map_colors_aux schedule) as [cm Hcm]. rewrite Hcm. simpl.
  destruct (for_list_returns (detail_line cm) schedule) as [details Hdetails].
  { eapply Forall_impl; [exact Hall |]. intros s. apply detail_line_returns. }
  exists cm, details. split; [done |].
  split; [by eapply for_list_length |]. by rewrite Hdetails.
Qed.

Lemma display_schedule_raises (len : string → nat)
    (upto : nat → string → string) (schedule : list Section) (i total : Z) :
  Exists (λ s, Exists (λ ts, weekday ts < -5) (time_slots s)) schedule →
  display_schedule len upto schedule i total = Raises IndexError.
Proof.
  intros Hex. unfold display_schedule.
  destruct (color_map_colors_aux schedule) as [cm Hcm]. rewrite Hcm. simpl.
  rewrite (for_list_raises _ _ IndexError); [done | |].
  - apply Forall_forall. intros s _. apply detail_line_cases.
  - eapply Exists_impl; [exact Hex |]. intros s. apply detail_line_raises.
Qed.



(** ** The pager *)

#[local] Arguments table_titles : simpl never.

Lemma table_titles_app (out1 out2 : list Printed) :
  table_titles (out1 ++ out2) = table_titles out1 ++ table_titles out2.
Proof. apply omap_app. Qed.

Lemma table_titles_cons (p : Printed) (out : list Printed) :
  table_titles (p :: out)
  = match p with
    | PrintTable title _ _ => title :: table_titles out
    | _ => table_titles out
    end.
Proof. by destruct p. Qed.

Lemma table_titles_lines (details : list string) :
  table_titles (PrintLine <$> details) = [].
Proof. by induction details. Qed.

Section pager.
Variable ops : StrOps.
Variable results : list Schedule.
Hypothesis results_displayable : Forall displayable results.

(** One scheme, shown: what every iteration of the two loops starts with. *)
Lemma scheme_shown (idx : Z) :
  0 ≤ idx < Z.of_nat (length results) →
  ∃ schedule shown,
    py_getitem results idx = Returns schedule
    ∧ display_schedule (str_len ops) (str_upto ops) schedule (idx + 1)
                       (Z.of_nat (length results)) = Returns shown
    ∧ Forall (shows_scheme ops results) shown
    ∧ table_titles shown = [scheme_title (Z.of_nat (length results)) (idx + 1)].
Proof.
  intros Hidx.
  destruct (lookup_lt_is_Some_2 results (Z.to_nat idx)) as [schedule Hs]; [lia |].
  assert (displayable schedule) as Hdisp.
  { rewrite Forall_forall in results_displayable.
    by eapply results_displayable, list_elem_of_lookup_2. }
  destruct (display_schedule_returns (str_len ops) (str_upto ops) schedule
              (idx + 1) (Z.of_nat (length results)) Hdisp)
    as (cm & details & Hcm & _ & Hshown).
  eexists schedule, _. split; [apply py_getitem_nonneg; [lia | done] |].
  split; [exact Hshown |]. split.
  - apply Forall_app. split; [| apply Forall_app; split].
    + repeat constructor. exists (Z.to_nat idx), schedule, cm.
      split; [done |]. split; [done |]. split; [| done]. f_equal. lia.
    + apply Forall_fmap, Forall_forall. by intros.
    + by repeat constructor.
  - rewrite !table_titles_app, table_titles_lines. done.
Qed.
End pager.

Lemma pager_loop_safe (ops : StrOps) (results : list Schedule)
    (stdin : list string) (idx : Z) :
  Forall displayable results →
  (∀ str, str_isdigit ops str = true → ∃ z, str_int ops str = Returns z) →
  0 ≤ idx →
  ∃ out, pager_loop ops results (Z.of_nat (length results)) stdin idx = Returns out
       ∧ Forall (shows_scheme ops results) out.
Proof.
  intros Hdisp Hint. revert idx.
  induction stdin as [|line stdin IH]; intros idx Hidx.
  - cbn [pager_loop]. case_bool_decide as Hlt; [| by eexists].
    destruct (scheme_shown ops results Hdisp idx)
      as (sch & shown & Hget & Hshow & Hok & _); [lia |].
    rewrite Hget. simpl. rewrite Hshow. simpl. case_bool_decide; eexists; (split; [done |]);
      apply Forall_app; (split; [done | by repeat constructor]).
  - cbn [pager_loop]. case_bool_decide as Hlt; [| by eexists].
    destruct (scheme_shown ops results Hdisp idx)
      as (sch & shown & Hget & Hshow & Hok & _); [lia |].
    rewrite Hget. simpl. rewrite Hshow. simpl. case_bool_decide as Hlast.
    2:{ eexists. split; [done |]. apply Forall_app. split; [done |].
        by repeat constructor. }
    case_bool_decide as Hquit.
    { eexists. split; [done |]. apply Forall_app. split; [done |].
      by repeat constructor. }
    destruct (str_isdigit ops (str_strip ops line)) eqn:Hdigit.
    + destruct (Hint _ Hdigit) as [target ->]. simpl.
      case_bool_decide as Hrange.
      * destruct (IH (target - 1)) as (more & -> & Hmore); [lia |]. simpl.
        eexists. split; [done |]. apply Forall_app. split; [done |].
        by constructor.
      * destruct (IH idx Hidx) as (more & -> & Hmore). simpl.
        eexists. split; [done |]. apply Forall_app. split; [done |].
        by repeat constructor.
    + destruct (IH (idx + 1)) as (more & -> & Hmore); [lia |]. simpl.
      eexists. split; [done |]. apply Forall_app. split; [done |].
      by constructor.
Qed.

Lemma show_all_spec (ops : StrOps) (total : Z) (results : list Schedule) (i : Z) :
  Forall displayable results →
  ∃ out, show_all ops total i results = Returns out
       ∧ table_titles out = scheme_title total <$> seqZ i (Z.of_nat (length results)).
Proof.
  intros Hdisp. revert i.
  induction Hdisp as [|schedule results Hs _ IH]; intros i; [by eexists |].
  cbn [show_all].
  destruct (display_schedule_returns (str_len ops) (str_upto ops) schedule i total Hs)
    as (cm & details & _ & _ & ->).
  simpl. destruct (IH (i + 1)) as (more & -> & Hmore). simpl.
  eexists. split; [done |].
  rewrite seqZ_cons by (simpl; lia). rewrite fmap_cons.
  replace (Z.succ i) with (i + 1) by lia.
  match goal with |- context [seqZ _ ?n] =>
    replace n with (Z.of_nat (@length Schedule results)) by lia end.
  rewrite <- Hmore.
  rewrite !table_titles_cons, !table_titles_app, table_titles_lines.
  case_bool_decide; by rewrite ?table_titles_cons.
Qed.

Lemma show_all_safe (ops : StrOps) (results : list Schedule) :
  Forall displayable results →
  ∀ rest k, drop k results = rest →
    ∃ out, show_all ops (Z.of_nat (length results)) (Z.of_nat k + 1) rest
           = Returns out
         ∧ Forall (shows_scheme ops results) out.
Proof.
  intros Hdisp. induction rest as [|schedule rest IH]; intros k Hdrop.
  - by eexists.
  - assert (results !! k = Some schedule) as Hk.
    { rewrite <- (Nat.add_0_r k), <- lookup_drop, Hdrop. done. }
    pose proof (lookup_lt_Some _ _ _ Hk) as Hlt.
    destruct (scheme_shown ops results Hdisp (Z.of_nat k))
      as (sch & shown & Hget & Hshow & Hok & _); [lia |].
    rewrite (py_getitem_nonneg results (Z.of_nat k) schedule) in Hget;
      [| lia | by rewrite Nat2Z.id].
    injection Hget as <-.
    cbn [show_all]. rewrite Hshow. simpl.
    destruct (IH (S k)) as (more & Hmore & Hokmore).
    { by rewrite (drop_S _ _ _ Hk) in Hdrop; injection Hdrop. }
    replace (Z.of_nat k + 1 + 1) with (Z.of_nat (S k) + 1) by lia.
    rewrite Hmore. simpl. eexists. split; [done |].
    apply Forall_app. split; [done |]. apply Forall_app. split; [| done].
    case_bool_decide; by repeat constructor.
Qed.

Lemma pager_loop_enter (ops : StrOps) (results : list Schedule)
    (stdin : list string) (idx : Z) :
  Forall displayable results →
  Forall (plain_enter ops) stdin →
  0 ≤ idx < Z.of_nat (length results) →
  ∃ out, pager_loop ops results (Z.of_nat (length results)) stdin idx = Returns out
       ∧ table_titles out
         = scheme_title (Z.of_nat (length results))
             <$> seqZ (idx + 1)
                   (Z.min (Z.of_nat (length stdin) + 1)
                          (Z.of_nat (length results) - idx)).
Proof.
  intros Hdisp Henter. revert idx.
  induction Henter as [|line stdin [Hq Hd] _ IH]; intros idx Hidx.
  - cbn [pager_loop]. rewrite bool_decide_eq_true_2 by lia.
    destruct (scheme_shown ops results Hdisp idx)
      as (sch & shown & Hget & Hshow & _ & Ht); [lia |].
    rewrite Hget. simpl. rewrite Hshow. simpl. replace (Z.min _ _) with 1 by lia.
    case_bool_decide; eexists; (split; [done |]);
      by rewrite table_titles_app, Ht.
  - cbn [pager_loop]. rewrite bool_decide_eq_true_2 by lia.
    destruct (scheme_shown ops results Hdisp idx)
      as (sch & shown & Hget & Hshow & _ & Ht); [lia |].
    rewrite Hget. simpl. rewrite Hshow. simpl. case_bool_decide as Hlast.
    + rewrite bool_decide_eq_false_2 by done. rewrite Hd.
      destruct (IH (idx + 1)) as (more & -> & Hmore); [lia |]. simpl.
      eexists. split; [done |].
      rewrite table_titles_app, table_titles_cons, Ht, Hmore.
      rewrite (seqZ_cons (idx + 1)) by lia. rewrite fmap_cons. simpl.
      do 3 f_equal; lia.
    + eexists. split; [done |]. rewrite table_titles_app, Ht.
      by replace (Z.min _ _) with 1 by lia.
Qed.







(** ** The scraper: [parse_time_slots] *)

Lemma first_match_Some {A B : Type} (f : A → option B) (l : list A) (y : B) :
  first_match f l = Some y → ∃ x, x ∈ l ∧ f x = Some y.
Proof.
  induction l as [|x l IH]; simpl; [done |].
  destruct (f x) as [y' |] eqn:Hx.
  - intros [= <-]. exists x. split; [left | done].
  - intros (x' & Hin & Hx')%IH. exists x'. split; [by right | done].
Qed.

Lemma match_at_class (decimal : N → option N) (s rest : list N) (c : N)
    (g2 g3 : list N) :
  match_at decimal s = Some (c, g2, g3, rest) → c ∈ weekday_class.
Proof.
  unfold match_at, literal. destruct s as [|a s]; [done |].
  case_decide; [| done]. simpl. destruct s as [|b s]; [done |].
  case_decide; [| done]. simpl. destruct s as [|c' s]; [done |].
  case_bool_decide as Hclass; [| done].
  destruct s as [|d s]; [done |]. case_decide; [| done]. simpl.
  intros ([g2' s5] & _ & Hinner)%first_match_Some.
  destruct s5 as [|e s5]; [done |]. case_decide; [| done]. simpl in Hinner.
  apply first_match_Some in Hinner as ([g3' s7] & _ & Hlast).
  destruct s7 as [|f s7]; [done |]. case_decide; [| done]. simpl in Hlast.
  by injection Hlast as <- _ _ _.
Qed.

Lemma finditer_elem (decimal : N → option N) (skip : nat) (s : list N)
    (c : N) (g2 g3 : list N) :
  (c, g2, g3) ∈ finditer decimal skip s →
  ∃ s' rest, match_at decimal s' = Some (c, g2, g3, rest).
Proof.
  revert skip. induction s as [|a s IH]; intros skip; simpl.
  - by intros ?%elem_of_nil.
  - destruct skip as [|k]; [| apply IH].
    destruct (match_at decimal (a :: s)) as [[[[c' g2'] g3'] rest] |] eqn:Hm;
      [| apply IH].
    intros [[= -> -> ->] | Hin]%elem_of_cons; [by eauto | by eapply IH].
Qed.

Lemma weekday_of_class (c : N) :
  c ∈ weekday_class → ∃ d, dict_get WEEKDAY_MAP c = Some d ∧ 0 ≤ d ≤ 6.
Proof.
  unfold weekday_class. rewrite !elem_of_cons, elem_of_nil.
  intros [-> | [-> | [-> | [-> | [-> | [-> | [-> | []]]]]]]];
    eexists; (split; [reflexivity | lia]).
Qed.

Lemma int_of_nonneg (decimal : N → option N) (g : list N) : 0 ≤ int_of decimal g.
Proof.
  unfold int_of.
  assert (∀ acc, 0 ≤ acc →
            0 ≤ foldl (λ acc c, 10 * acc + Z.of_N (default 0%N (decimal c))) acc g)
    as Hgen; [| by apply Hgen].
  induction g as [|c g IH]; intros acc Hacc; simpl; [done |].
  apply IH. lia.
Qed.

Lemma parse_time_slots_range (decimal : N → option N) (time_str : list N)
    (ts : TimeSlot) :
  ts ∈ parse_time_slots decimal time_str →
  0 ≤ weekday ts ≤ 6 ∧ 0 ≤ start_period ts ∧ 0 ≤ end_period ts.
Proof.
  unfold parse_time_slots. intros ([[c g2] g3] & Hin & Hts)%list_elem_of_omap.
  apply finditer_elem in Hin as (s' & rest & Hm).
  apply match_at_class, weekday_of_class in Hm as (d & Hd & Hrange).
  rewrite Hd in Hts. injection Hts as <-. simpl.
  split; [done |]. split; apply int_of_nonneg.
Qed.

(** X20.  Every match of the pattern gives a time slot (the test
    [weekday is not None] never fails), with a weekday from 0 to 6 and
    periods that are not negative.  Nothing more is checked: the periods
    need not lie in 1 to 11, nor the start before the end. *)
Theorem parsed_slots_range (decimal : N → option N) (time_str : list N) :
  length (parse_time_slots decimal time_str)
  = length (finditer decimal 0 time_str)
  ∧ Forall (λ ts, 0 ≤ weekday ts ≤ 6 ∧ 0 ≤ start_period ts ∧ 0 ≤ end_period ts)
           (parse_time_slots decimal time_str).
Proof.
  unfold parse_time_slots. split.
  - assert (Forall (λ m, ∃ c g2 g3 d, m = (c, g2, g3)
                      ∧ dict_get WEEKDAY_MAP c = Some d)
              (finditer decimal 0 time_str)) as Hall.
    { apply Forall_forall. intros [[c g2] g3] Hin.
      apply finditer_elem in Hin as (s' & rest & Hm).
      apply match_at_class, weekday_of_class in Hm as (d & Hd & _).
      by exists c, g2, g3, d. }
    induction Hall as [|m l (c & g2 & g3 & d & -> & Hd) _ IH]; [done |].
    cbn [omap list_omap]. cbv zeta. rewrite Hd. cbn [length]. f_equal. apply IH.
  - apply Forall_forall. intros ts. apply parse_time_slots_range.
Qed.

Section documented_format.
Context (decimal : N → option N).
Hypothesis Hdigit : ∀ c, (48 ≤ c ≤ 57)%N → decimal c = Some (c - 48)%N.
Hypothesis Hdash : decimal cp_dash = None.
Hypothesis Hjie : decimal cp_jie = None.

Lemma numeral_rev_digits (fuel : nat) (n : N) :
  Forall (λ c, (48 ≤ c ≤ 57)%N) (numeral_rev fuel n).
Proof.
  revert n. induction fuel as [|fuel IH]; intros n; simpl; [constructor |].
  case_bool_decide.
  - constructor; [lia | constructor].
  - constructor; [| apply IH]. pose proof (N.mod_lt n 10 ltac:(lia)) as Hlt.
    revert Hlt. generalize (n `mod` 10)%N. intros r Hlt. lia.
Qed.

Lemma numeral_digits (n : N) : Forall (λ c, (48 ≤ c ≤ 57)%N) (numeral n).
Proof. unfold numeral. apply Forall_reverse, numeral_rev_digits. Qed.

Lemma numeral_nonempty (n : N) : numeral n ≠ [].
Proof.
  unfold numeral. simpl. case_bool_decide.
  - done.
  - rewrite reverse_cons. intros Heq. apply (f_equal length) in Heq.
    rewrite length_app in Heq. simpl in Heq. lia.
Qed.

Lemma numeral_rev_value (fuel : nat) (n : N) :
  (N.to_nat n < fuel)%nat →
  foldl (λ acc c, 10 * acc + Z.of_N (default 0%N (decimal c))) 0
        (reverse (numeral_rev fuel n)) = Z.of_N n.
Proof.
  revert n. induction fuel as [|fuel IH]; intros n Hfuel; [lia |].
  simpl. case_bool_decide as Hn.
  - simpl. rewrite Hdigit by lia. simpl. lia.
  - rewrite reverse_cons, foldl_app. simpl.
    pose proof (N.div_mod n 10 ltac:(lia)) as Hdm.
    pose proof (N.mod_lt n 10 ltac:(lia)) as Hlt.
    revert IH Hdm Hlt. generalize (n `mod` 10)%N (n `div` 10)%N.
    intros r q IH Hdm Hlt.
    rewrite IH, Hdigit by lia. simpl. lia.
Qed.

Lemma int_of_numeral (n : N) : int_of decimal (numeral n) = Z.of_N n.
Proof. unfold int_of, numeral. apply numeral_rev_value. lia. Qed.
Lemma digit_span_run (ds rest : list N) :
  Forall (λ c, (48 ≤ c ≤ 57)%N) ds →
  head rest ≫= decimal = None →
  digit_span decimal (ds ++ rest) = (ds, rest).
Proof.
  intros Hds Hrest. induction Hds as [|c ds Hc _ IH]; simpl.
  - destruct rest as [|c rest]; [done |]. simpl in *. by rewrite Hrest.
  - by rewrite (Hdigit c Hc), IH.
Qed.

Lemma first_match_digit_runs {B : Type} (f : list N * list N → option B)
    (ds rest : list N) (y : B) :
  ds ≠ [] →
  Forall (λ c, (48 ≤ c ≤ 57)%N) ds →
  head rest ≫= decimal = None →
  f (ds, rest) = Some y →
  first_match f (digit_runs decimal (ds ++ rest)) = Some y.
Proof.
  intros Hne Hds Hrest Hf. unfold digit_runs.
  rewrite (digit_span_run ds rest Hds Hrest).
  destruct (length ds) as [|n] eqn:Hlen; [by destruct ds |].
  rewrite seq_S, reverse_app, reverse_singleton, fmap_app, fmap_cons.
  cbn [app first_match fmap list_fmap].
  rewrite take_ge, drop_ge by lia. cbn [app]. by rewrite Hf.
Qed.

Lemma match_at_slot_text (ts : TimeSlot) (rest : list N) :
  expressible ts →
  match_at decimal (slot_text ts ++ rest)
  = Some (default 0%N (weekday_class !! Z.to_nat (weekday ts)),
          numeral (Z.to_N (start_period ts)),
          numeral (Z.to_N (end_period ts)), rest).
Proof.
  intros (Hday & _ & _). unfold slot_text, match_at.
  set (wc := default 0%N (weekday_class !! Z.to_nat (weekday ts))).
  assert (wc ∈ weekday_class) as Hwc.
  { subst wc.
    assert (weekday ts = 0 ∨ weekday ts = 1 ∨ weekday ts = 2 ∨ weekday ts = 3
            ∨ weekday ts = 4 ∨ weekday ts = 5 ∨ weekday ts = 6)
      as [-> | [-> | [-> | [-> | [-> | [-> | ->]]]]]] by lia;
      vm_compute; set_solver. }
  cbn [app literal]. rewrite decide_True by done. cbn [mbind option_bind].
  cbn [literal]. rewrite decide_True by done. cbn [mbind option_bind].
  rewrite bool_decide_eq_true_2 by done.
  cbn [literal]. rewrite decide_True by done. cbn [mbind option_bind].
  rewrite <- app_assoc. apply first_match_digit_runs.
  - apply numeral_nonempty.
  - apply numeral_digits.
  - exact Hdash.
  - cbn [app literal]. rewrite decide_True by done. cbn [mbind option_bind].
    rewrite <- app_assoc.
    apply first_match_digit_runs.
    + apply numeral_nonempty.
    + apply numeral_digits.
    + exact Hjie.
    + cbn [app literal]. by rewrite decide_True by done.
Qed.

Lemma finditer_skip (pre s : list N) :
  finditer decimal (length pre) (pre ++ s) = finditer decimal 0 s.
Proof. induction pre as [|c pre IH]; [done | apply IH]. Qed.

Lemma finditer_separator (sep s : list N) :
  cp_xing ∉ sep → finditer decimal 0 (sep ++ s) = finditer decimal 0 s.
Proof.
  induction sep as [|c sep IH]; [done |].
  intros [Hc Hsep]%not_elem_of_cons. cbn [app finditer].
  unfold match_at. cbn [literal]. rewrite decide_False by done.
  cbn [mbind option_bind]. by apply IH.
Qed.

Lemma finditer_slot_text (ts : TimeSlot) (rest : list N) :
  expressible ts →
  finditer decimal 0 (slot_text ts ++ rest)
  = (default 0%N (weekday_class !! Z.to_nat (weekday ts)),
     numeral (Z.to_N (start_period ts)),
     numeral (Z.to_N (end_period ts))) :: finditer decimal 0 rest.
Proof.
  intros Hts. pose proof (match_at_slot_text ts rest Hts) as Hm.
  destruct (slot_text ts) as [|c tl] eqn:Htext; [done |].
  cbn [app finditer]. cbn [app] in Hm. rewrite Hm. f_equal.
  replace (length (c :: tl ++ rest) - length rest - 1)%nat with (length tl)
    by (cbn [length]; rewrite length_app; lia).
  apply finditer_skip.
Qed.
End documented_format.

Lemma weekday_round_trip (d : Z) :
  0 ≤ d ≤ 6 →
  dict_get WEEKDAY_MAP (default 0%N (weekday_class !! Z.to_nat d)) = Some d.
Proof.
  intros Hd.
  assert (d = 0 ∨ d = 1 ∨ d = 2 ∨ d = 3 ∨ d = 4 ∨ d = 5 ∨ d = 6)
    as [-> | [-> | [-> | [-> | [-> | [-> | ->]]]]]] by lia; reflexivity.
Qed.

(** X21.  The format of the docstring is read back: a string made of time
    slots written as 星期一第1-2节 (weekday 0 to 6, periods in decimal
    ASCII digits, not negative), with any text without 星 before, between
    and after them, parses to exactly these time slots, in order.  It
    needs of the digits only that the ASCII ones are digits with their
    value and that - and 节 are not. *)
Theorem parse_documented_format (decimal : N → option N) (sep0 : list N)
    (l : list (TimeSlot * list N)) :
  (∀ c, (48 ≤ c ≤ 57)%N → decimal c = Some (c - 48)%N) →
  decimal cp_dash = None →
  decimal cp_jie = None →
  cp_xing ∉ sep0 →
  Forall (λ p, expressible p.1 ∧ cp_xing ∉ p.2) l →
  parse_time_slots decimal (sep0 ++ (l ≫= λ p, slot_text p.1 ++ p.2)) = l.*1.
Proof.
  intros Hdigit Hdash Hjie Hsep0 Hl. unfold parse_time_slots.
  rewrite (finditer_separator decimal sep0 _ Hsep0). clear sep0 Hsep0.
  induction Hl as [|[ts sep] l [Hts Hsep] _ IH]; [done |].
  cbn [fst snd] in Hts, Hsep.
  rewrite bind_cons, fmap_cons. cbn [fst snd]. rewrite <- app_assoc.
  rewrite (finditer_slot_text decimal Hdigit Hdash Hjie ts _ Hts).
  rewrite (finditer_separator decimal sep _ Hsep).
  cbn [omap list_omap]. cbv zeta.
  destruct Hts as (Hday & Hstart & Hend).
  rewrite (weekday_round_trip _ Hday).
  rewrite !(int_of_numeral decimal Hdigit), !Z2N.id by done.
  f_equal; [by destruct ts | apply IH].
Qed.

Lemma parse_documented_format_witness :
  parse_time_slots ascii_digit
    ([32%N] ++ (slot_text (slot 0 1 2) ++ [59%N; 32%N])
     ++ (slot_text (slot 4 10 11) ++ []) ++ [])
  = [slot 0 1 2; slot 4 10 11].
Proof.
  apply (parse_documented_format ascii_digit [32%N]
           [(slot 0 1 2, [59%N; 32%N]); (slot 4 10 11, [])]).
  - intros c Hc. unfold ascii_digit. by rewrite bool_decide_eq_true_2.
  - reflexivity.
  - reflexivity.
  - vm_compute. set_solver.
  - repeat constructor; simpl; try lia; vm_compute; set_solver.
Defined.

(** ** The selection: [get_courses_for_selection] *)

Lemma dict_get_elem_of {V : Type} (d : list (string * V)) (k : string) (v : V) :
  dict_get d k = Some v → (k, v) ∈ d.
Proof.
  induction d as [|[k' v'] d IH]; simpl; [done |].
  case_decide as Hk.
  - intros [= ->]. subst. left.
  - intros Hget. right. by apply IH.
Qed.

Lemma dict_get_app {V : Type} (d d' : list (string * V)) (k : string) :
  dict_get (d ++ d') k
  = match dict_get d k with
    | Some v => Some v
    | None => dict_get d' k
    end.
Proof.
  induction d as [|[k' v'] d IH]; simpl; [done |]. by case_decide.
Qed.

Lemma add_hardcoded_spec (fetched : list (string * list Section)) :
  ∃ extra out,
    add_hardcoded fetched = (fetched ++ extra, out)
    ∧ extra ⊆ _HARDCODED
    ∧ ∀ k, dict_get (fetched ++ extra) k
           = match dict_get fetched k with
             | Some v => Some v
             | None => dict_get _HARDCODED k
             end.
Proof.
  unfold add_hardcoded, _HARDCODED. cbn [foldl].
  destruct (dict_get fetched "数理逻辑导论") as [v |] eqn:Hget.
  - exists [], []. rewrite app_nil_r. split; [done |]. split; [set_solver |].
    intros k. destruct (dict_get fetched k) as [w |] eqn:Hk; [done |].
    simpl. case_decide; [congruence | done].
  - eexists _, _. split; [done |]. split; [done |].
    intros k. apply dict_get_app.
Qed.

Lemma fuzzy_matches_subseteq (contains : string → string → bool)
    (all_courses : list (string * list Section)) (name : string) :
  fuzzy_matches contains all_courses name ⊆ all_courses.
Proof. unfold fuzzy_matches. intros item Hin. by apply list_elem_of_filter in Hin as [_ ?]. Qed.

Lemma section_line_returns (sec : Section) :
  Forall (λ ts, -5 ≤ weekday ts) (time_slots sec) →
  ∃ line, section_line sec = Returns line.
Proof.
  intros Hall. unfold section_line.
  destruct (for_list_returns TimeSlot_str (time_slots sec)) as [strs ->];
    [| by eexists].
  eapply Forall_impl; [exact Hall |]. apply TimeSlot_str_returns.
Qed.

Lemma select_cases (strip : string → string) (contains : string → string → bool)
    (all_courses : list (string * list Section)) (name : string)
    (st st' : Selection) :
  select strip contains all_courses name st = Returns st' →
  select_step strip contains all_courses name st st'.
Proof.
  unfold select. case_bool_decide as Hblank.
  { intros [= <-]. by apply step_blank. }
  destruct (dict_get all_courses (strip name)) as [secs |] eqn:Hget.
  { intros [= <-]. by eapply step_exact. }
  destruct (fuzzy_matches contains all_courses (strip name))
    as [|[k1 v1] [|second more]] eqn:Hfuzzy.
  - intros [= <-]. by apply step_not_found.
  - intros [= <-]. by eapply step_single.
  - destruct (for_list section_line _) as [lines |] eqn:Hlines; [| done].
    simpl. intros [= <-]. by eapply step_merged.
Qed.

Lemma select_returns (strip : string → string) (contains : string → string → bool)
    (all_courses : list (string * list Section)) (name : string) (st : Selection) :
  Forall (λ item, displayable item.2) all_courses →
  ∃ st', select strip contains all_courses name st = Returns st'.
Proof.
  intros Hall. unfold select. case_bool_decide; [by eexists |].
  destruct (dict_get all_courses (strip name)); [by eexists |].
  pose proof (fuzzy_matches_subseteq contains all_courses (strip name)) as Hsub.
  destruct (fuzzy_matches contains all_courses (strip name))
    as [|[k1 v1] [|second more]]; [by eexists | by eexists |].
  destruct (for_list_returns section_line (((k1, v1) :: second :: more) ≫= snd))
    as [lines Hlines].
  - apply Forall_forall. intros sec (item & Hsec & Hitem)%list_elem_of_bind.
    apply section_line_returns.
    apply Hsub in Hitem. rewrite Forall_forall in Hall.
    specialize (Hall item Hitem). unfold displayable in Hall.
    rewrite Forall_forall in Hall. by apply Hall.
  - rewrite Hlines. by eexists.
Qed.

Lemma for_each_returns {A S : Type} (l : list A) (body : A → S → outcome S) (st : S) :
  (∀ x s, ∃ s', body x s = Returns s') → ∃ st', for_each l body st = Returns st'.
Proof.
  intros Hbody. revert st. induction l as [|x l IH]; intros st; simpl; [by eexists |].
  destruct (Hbody x st) as [s' ->]. simpl. apply IH.
Qed.

Lemma for_each_invariant {A S : Type} (P : list A → S → Prop) (l : list A)
    (body : A → S → outcome S) (st st' : S) :
  P [] st →
  (∀ done x s s', P done s → body x s = Returns s' → P (done ++ [x]) s') →
  for_each l body st = Returns st' →
  P l st'.
Proof.
  intros Hinit Hstep.
  assert (∀ done s, P done s → for_each l body s = Returns st' → P (done ++ l) st')
    as Hgen; [| by apply (Hgen [])].
  induction l as [|x l IH]; intros done s HP; simpl.
  - intros [= <-]. by rewrite app_nil_r.
  - destruct (body x s) as [s1 |] eqn:Hbody; [| done]. simpl. intros Hrest.
    rewrite cons_middle, app_assoc. eapply IH; [| exact Hrest]. by eapply Hstep.
Qed.

Lemma select_step_grows (strip : string → string) (contains : string → string → bool)
    (all_courses : list (string * list Section)) (name : string)
    (st st' : Selection) :
  select_step strip contains all_courses name st st' →
  ∃ delta, result st' = result st ++ delta.
Proof.
  intros [? -> | secs ? ? Hr ? ? | k secs line ? ? ? Hr ? ?
          | first second more lines ? ? ? Hr ? ? | ? ? ? Hr ? ?].
  - exists []. by rewrite app_nil_r.
  - by eexists.
  - by eexists.
  - by eexists.
  - exists []. by rewrite app_nil_r.
Qed.

Lemma select_step_sections (strip : string → string)
    (contains : string → string → bool)
    (all_courses : list (string * list Section)) (name : string)
    (st st' : Selection) :
  Forall (λ item, item.2 ≠ []) all_courses →
  select_step strip contains all_courses name st st' →
  Forall (λ c, sections c ≠ []) (result st) →
  Forall (λ c, sections c ≠ []) (result st').
Proof.
  intros Hall Hstep Hres. rewrite Forall_forall in Hall.
  pose proof (fuzzy_matches_subseteq contains all_courses (strip name)) as Hsub.
  destruct Hstep as [? -> | secs ? Hget Hr ? ? | k secs line ? ? Hfz Hr ? ?
                     | first second more lines ? ? Hfz Hr ? ? | ? ? ? Hr ? ?].
  - done.
  - rewrite Hr. apply Forall_app. split; [done |]. apply Forall_singleton. simpl.
    apply dict_get_elem_of in Hget. apply (Hall _ Hget).
  - rewrite Hr. apply Forall_app. split; [done |]. apply Forall_singleton. simpl.
    apply (Hall (k, secs)), Hsub. rewrite Hfz. left.
  - rewrite Hr. apply Forall_app. split; [done |]. apply Forall_singleton.
    cbn [sections].
    assert (first ∈ all_courses) as Hfirst by (apply Hsub; rewrite Hfz; left).
    rewrite bind_cons. intros [Hnil _]%app_eq_nil. by apply (Hall _ Hfirst).
  - by rewrite Hr.
Qed.

Lemma empty_courses_nil (courses : list Course) :
  Forall (λ c, sections c ≠ []) courses → empty_courses courses = [].
Proof.
  unfold empty_courses. induction 1 as [|c l Hc _ IH]; [done |].
  by rewrite filter_cons_False.
Qed.

Lemma hardcoded_sections :
  Forall (λ item : string * list Section, item.2 ≠ [] ∧ displayable item.2) _HARDCODED.
Proof.
  unfold _HARDCODED, displayable. repeat constructor; simpl; (done || lia).
Qed.

(** X22.  When every course of the fetched dict has a section (the fetch
    makes a key only when it appends a section to it), every course that
    [get_courses_for_selection] returns has one: [solve] skips none of
    them and prints no line. *)
Theorem selected_courses_have_sections (strip : string → string)
    (contains : string → string → bool) (fetched : list (string * list Section))
    (wanted_course_names : list string) (courses : list Course)
    (out : list string) (max_results : Z) :
  Forall (λ item, item.2 ≠ []) fetched →
  get_courses_for_selection strip contains fetched wanted_course_names
  = Returns (courses, out) →
  Forall (λ c, sections c ≠ []) courses
  ∧ valid_courses courses = courses
  ∧ ∃ run, solve_run courses max_results = Returns run ∧ printed run = [].
Proof.
  intros Hfetched Hget.
  assert (Forall (λ c, sections c ≠ []) courses) as Hall.
  { unfold get_courses_for_selection, selection in Hget.
    destruct (add_hardcoded_spec fetched) as (extra & out0 & Hadd & Hextra & _).
    rewrite Hadd in Hget.
    destruct (for_each _ _ _) as [st |] eqn:Hloop; [| done].
    simpl in Hget. injection Hget as <- _.
    assert (Forall (λ item : string * list Section, item.2 ≠ []) (fetched ++ extra))
      as Hitems.
    { apply Forall_app. split; [done |]. apply Forall_forall. intros item Hitem.
      pose proof hardcoded_sections as Hhc. rewrite Forall_forall in Hhc.
      by apply Hhc, Hextra. }
    eapply (for_each_invariant (λ _ s, Forall (λ c, sections c ≠ []) (result s)));
      [| | exact Hloop].
    - constructor.
    - intros done x s s' Hs Hbody.
      eapply select_step_sections; [exact Hitems | by apply select_cases | done]. }
  split; [done |]. split; [by apply valid_courses_id |].
  destruct (solve_run_spec courses max_results) as (run & Hrun & Hout & _).
  exists run. split; [done |]. by rewrite Hout, empty_courses_nil.
Qed.

Lemma selected_courses_have_sections_witness :
  Forall (λ c, sections c ≠ []) [course_Y; course_X]
  ∧ valid_courses [course_Y; course_X] = [course_Y; course_X]
  ∧ ∃ run, solve_run [course_Y; course_X] 10 = Returns run ∧ printed run = [].
Proof.
  eapply (selected_courses_have_sections id py_in tis_courses ["Y"; ""; "X"]).
  - repeat constructor; done.
  - vm_compute. reflexivity.
Defined.

(** X23.  [get_courses_for_selection] raises nothing when every time slot
    of the fetched sections has a weekday of at least -5, as every parsed
    time slot has: [str(ts)], called for the sections of a merged course,
    is the one place that can raise. *)
Theorem selection_returns (strip : string → string)
    (contains : string → string → bool) (fetched : list (string * list Section))
    (wanted_course_names : list string) :
  Forall (λ item, displayable item.2) fetched →
  ∃ courses out,
    get_courses_for_selection strip contains fetched wanted_course_names
    = Returns (courses, out).
Proof.
  intros Hfetched. unfold get_courses_for_selection, selection.
  destruct (add_hardcoded_spec fetched) as (extra & out0 & -> & Hextra & _).
  assert (Forall (λ item : string * list Section, displayable item.2)
            (fetched ++ extra)) as Hitems.
  { apply Forall_app. split; [done |]. apply Forall_forall. intros item Hitem.
    pose proof hardcoded_sections as Hhc. rewrite Forall_forall in Hhc.
    by apply Hhc, Hextra. }
  edestruct (for_each_returns wanted_course_names
               (select strip contains (fetched ++ extra))) as [st ->].
  - intros x s. by apply select_returns.
  - by eexists _, _.
Qed.

Lemma selection_returns_witness :
  ∃ courses out,
    get_courses_for_selection id py_in tis_courses ["Y"; "XY"] = Returns (courses, out).
Proof.
  apply (selection_returns id py_in tis_courses ["Y"; "XY"]).
  unfold displayable. repeat constructor; simpl; lia.
Defined.



(** X25.  A wanted name that, stripped, is a key of the fetched dict gets
    the sections of that key, whatever other keys contain it or are
    contained in it; a hard-coded course is used when the fetched dict has
    no such key, and never in place of a fetched one. *)
Theorem exact_name_resolves (strip : string → string)
    (contains : string → string → bool) (fetched : list (string * list Section))
    (wanted_course_names : list string) (name : string) (secs : list Section)
    (courses : list Course) (out : list string) :
  name ∈ wanted_course_names →
  strip name ≠ "" →
  match dict_get fetched (strip name) with
  | Some fetched_secs => fetched_secs = secs
  | None => dict_get _HARDCODED (strip name) = Some secs
  end →
  get_courses_for_selection strip contains fetched wanted_course_names
  = Returns (courses, out) →
  Build_Course (strip name) secs ∈ courses.
Proof.
  intros Hin Hname Hkey. unfold get_courses_for_selection, selection.
  destruct (add_hardcoded_spec fetched) as (extra & out0 & -> & _ & Hkeys).
  destruct (for_each _ _ _) as [st |] eqn:Hloop; [| done].
  simpl. intros [= <- _].
  assert (dict_get (fetched ++ extra) (strip name) = Some secs) as Hget.
  { rewrite Hkeys. destruct (dict_get fetched (strip name)); by subst. }
  revert Hin.
  eapply (for_each_invariant
            (λ done s, name ∈ done → Build_Course (strip name) secs ∈ result s));
    [| | exact Hloop].
  - by intros ?%elem_of_nil.
  - intros done x s s' IH Hbody. apply select_cases in Hbody.
    intros [Hdone | ->%list_elem_of_singleton]%elem_of_app.
    + destruct (select_step_grows _ _ _ _ _ _ Hbody) as [delta ->].
      apply elem_of_app. left. by apply IH.
    + destruct Hbody as [Hx ? | secs' ? Hget' Hr ? ? | ? ? ? ? Hget' ? ? ? ?
                         | ? ? ? ? ? Hget' ? ? ? ? | ? Hget' ? ? ? ?];
        try congruence.
      rewrite Hr. apply elem_of_app. right.
      rewrite Hget in Hget'. injection Hget' as <-. left.
Qed.

Lemma exact_name_resolves_witness :
  ∃ secs courses out,
    dict_get _HARDCODED "数理逻辑导论" = Some secs
    ∧ get_courses_for_selection id py_in tis_courses ["X"; "数理逻辑导论"]
      = Returns (courses, out)
    ∧ Build_Course "数理逻辑导论" secs ∈ courses.
Proof.
  eexists _, _, _. split; [reflexivity |]. split; [vm_compute; reflexivity |].
  eapply (exact_name_resolves id py_in tis_courses ["X"; "数理逻辑导论"] "数理逻辑导论").
  - right. left.
  - discriminate.
  - reflexivity.
  - vm_compute. reflexivity.
Defined.

(** X26.  Two wanted names can select the same course: one that is a key,
    and one that is no key and is related by containment to that key only.
    The course is then returned twice, and [solve] looks for two of its
    sections that do not overlap: when every two sections of it overlap,
    [solve] finds no schedule. *)
Theorem two_names_one_course (strip : string → string)
    (contains : string → string → bool) (fetched : list (string * list Section))
    (wanted_course_names : list string) (a b : string) (secs : list Section)
    (courses : list Course) (out : list string) (max_results : Z) :
  a ∈ wanted_course_names →
  b ∈ wanted_course_names →
  strip a ≠ "" →
  strip b ≠ "" →
  dict_get (add_hardcoded fetched).1 (strip a) = Some secs →
  dict_get (add_hardcoded fetched).1 (strip b) = None →
  fuzzy_matches contains (add_hardcoded fetched).1 (strip b) = [(strip a, secs)] →
  secs ≠ [] →
  (∀ s1 s2, s1 ∈ secs → s2 ∈ secs → ¬ all_periods s1 ## all_periods s2) →
  get_courses_for_selection strip contains fetched wanted_course_names
  = Returns (courses, out) →
  (∃ rest, courses ≡ₚ Build_Course (strip a) secs :: Build_Course (strip a) secs :: rest)
  ∧ solve courses max_results = Returns [].
Proof.
  intros Ha Hb Hna Hnb Hgeta Hgetb Hfuzzy Hne Hclash.
  unfold get_courses_for_selection, selection.
  destruct (add_hardcoded fetched) as [all_courses out0]. cbn [fst] in *.
  destruct (for_each _ _ _) as [st |] eqn:Hloop; [| done].
  simpl. intros [= <- _].
  set (C := Build_Course (strip a) secs).
  assert (∃ rest, result st ≡ₚ C :: C :: rest) as [rest Hperm].
  { assert (∃ rest,
              result st
              ≡ₚ (if decide (a ∈ wanted_course_names) then [C] else [])
                 ++ (if decide (b ∈ wanted_course_names) then [C] else []) ++ rest)
      as [rest Hperm].
    { pose (P := λ (done : list string) (s : Selection),
                   ∃ rest,
                     result s
                     ≡ₚ (if decide (a ∈ done) then [C] else [])
                        ++ (if decide (b ∈ done) then [C] else []) ++ rest).
      eapply (for_each_invariant P wanted_course_names); subst P; cbv beta;
        [| | exact Hloop].
      - exists []. rewrite !decide_False by (by intros ?%elem_of_nil). done.
      - intros done x s s' [rest IH] Hbody. apply select_cases in Hbody.
        assert (∃ delta, result s' = result s ++ delta
                  ∧ (x = a ∨ x = b → delta = [C])) as (delta & Hr & Hdelta).
        { destruct Hbody as [Hx -> | secs' ? Hget' Hr ? ?
                             | k secs' line ? Hget' Hfz Hr ? ?
                             | ? ? ? ? ? Hget' Hfz Hr ? ? | ? Hget' Hfz Hr ? ?].
          - exists []. rewrite app_nil_r. split; [done |].
            intros [-> | ->]; congruence.
          - eexists. split; [exact Hr |]. intros [-> | ->]; [| congruence].
            rewrite Hgeta in Hget'. by injection Hget' as <-.
          - eexists. split; [exact Hr |]. intros [-> | ->]; [congruence |].
            rewrite Hfuzzy in Hfz. by injection Hfz as <- <-.
          - eexists. split; [exact Hr |]. intros [-> | ->]; congruence.
          - exists []. rewrite app_nil_r. split; [done |].
            intros [-> | ->]; congruence. }
        assert (a ≠ b) as Hab by congruence.
        assert (a ∈ done ++ [x] ↔ a ∈ done ∨ x = a) as Hadone.
        { rewrite elem_of_app, list_elem_of_singleton. naive_solver. }
        assert (b ∈ done ++ [x] ↔ b ∈ done ∨ x = b) as Hbdone.
        { rewrite elem_of_app, list_elem_of_singleton. naive_solver. }
        destruct (decide (x = a)) as [-> | Hxa]; [| destruct (decide (x = b)) as [-> | Hxb]].
        + rewrite (Hdelta (or_introl eq_refl)) in Hr.
          destruct (decide (a ∈ done)), (decide (b ∈ done)),
            (decide (a ∈ done ++ [a])), (decide (b ∈ done ++ [a]));
            try tauto; eexists; rewrite Hr, IH; simpl;
            first [ by rewrite <- Permutation_cons_append
                  | by rewrite <- !app_assoc
                  | by rewrite <- !app_comm_cons ].
        + rewrite (Hdelta (or_intror eq_refl)) in Hr.
          destruct (decide (a ∈ done)), (decide (b ∈ done)),
            (decide (a ∈ done ++ [b])), (decide (b ∈ done ++ [b]));
            try tauto; eexists; rewrite Hr, IH; simpl;
            first [ by rewrite <- Permutation_cons_append
                  | by rewrite <- !app_assoc
                  | by rewrite <- !app_comm_cons ].
        + exists (rest ++ delta). rewrite Hr, IH.
          destruct (decide (a ∈ done)), (decide (b ∈ done)),
            (decide (a ∈ done ++ [x])), (decide (b ∈ done ++ [x]));
            try tauto; by rewrite <- !app_assoc. }
    exists rest. by rewrite !decide_True in Hperm by done. }
  split; [by exists rest |].
  rewrite solve_spec. f_equal. by eapply enumeration_twice.
Qed.

Lemma two_names_one_course_witness :
  ∃ courses out,
    get_courses_for_selection id py_in tis_courses ["Y"; "X"; "Y2"]
    = Returns (courses, out)
    ∧ solve courses 2000 = Returns [].
Proof.
  eexists _, _. split; [vm_compute; reflexivity |].
  eapply (two_names_one_course id py_in tis_courses ["Y"; "X"; "Y2"] "Y" "Y2" [y_mon]).
  - left.
  - right. right. left.
  - discriminate.
  - discriminate.
  - reflexivity.
  - reflexivity.
  - vm_compute. reflexivity.
  - discriminate.
  - intros s1 s2 ->%list_elem_of_singleton ->%list_elem_of_singleton Hd.
    apply (Hd (0, 1)); apply elem_of_all_periods; exists (slot 0 1 2);
      (split; [left | apply elem_of_periods; simpl; lia]).
  - vm_compute. reflexivity.
Defined.

(** ** From the scraper to the display *)




